(** * Waypoint: configuration resolver and location-sync tick

    A shallow embedding of the two source files of the widget:

    - the configuration module ([getEnv], [environment]);
    - the component of [App.tsx]: its state, [initializeMap] with the
      map's load handler, and the sync tick [fetchGarminLocation].

    JavaScript values are modelled as the code uses them: strings as
    [string] (sequences of 8-bit code units), [undefined]/[null] as
    [None], plain objects read by property name as [gmap string _],
    numbers as [number] below.  What the platform supplies and the
    repository does not own (the XML parser, the date parser, the
    network) is a parameter of the tick: a [Host] record and a per-tick
    [Net] function.  The mapping library is modelled by the contract
    the calling code assumes of it (re-centre, line-source get and set
    by source id).  The nodes that [getElementsByClassName] returns are
    DOM elements: assigning a property to one succeeds, calling its
    [update], which no element has, throws a TypeError. *)

From Stdlib Require Import ZArith QArith Ascii String List Bool Lia.
From stdpp Require Import base option list strings gmap.

Set Warnings "-register-all".

Local Open Scope string_scope.
Local Open Scope Z_scope.

(** ** JavaScript strings *)

Module JsString.

(** Code units that [String.prototype.trim] and the numeric grammar
    treat as white space or line terminators (Latin-1 range). *)
Definition isWhiteSpace (c : ascii) : bool :=
  let n := nat_of_ascii c in
  (Nat.eqb n 9 || Nat.eqb n 10 || Nat.eqb n 11 || Nat.eqb n 12
   || Nat.eqb n 13 || Nat.eqb n 32 || Nat.eqb n 160)%bool.

Fixpoint trimStart (s : string) : string :=
  match s with
  | String c s' => if isWhiteSpace c then trimStart s' else s
  | EmptyString => EmptyString
  end.

(** [trimEnd] keeps a character when it is not white space or when
    something is kept after it. *)
Fixpoint trimEnd (s : string) : string :=
  match s with
  | String c s' =>
      match trimEnd s' with
      | EmptyString => if isWhiteSpace c then EmptyString else String c EmptyString
      | t => String c t
      end
  | EmptyString => EmptyString
  end.

Definition trim (s : string) : string := trimEnd (trimStart s).

(** [s.split(sep)] for a one-character separator: never returns the
    empty array; the empty string splits to [[""]]. *)
Fixpoint split (sep : ascii) (s : string) : list string :=
  match s with
  | EmptyString => [EmptyString]
  | String c s' =>
      if Ascii.eqb c sep then EmptyString :: split sep s'
      else match split sep s' with
           | h :: t => String c h :: t
           | [] => [String c EmptyString]
           end
  end.

(** Whether a string contains a given code unit. *)
Fixpoint contains (c : ascii) (s : string) : bool :=
  match s with
  | EmptyString => false
  | String d s' => (Ascii.eqb d c || contains c s')%bool
  end.

End JsString.

(** ** JavaScript numbers

    [Fin q] stands for the finite double that the exact value [q]
    rounds to; rounding, overflow to an infinity and the sign of zero
    are not modelled.  None of them can turn a number into [NaN] or
    back, which is all that the code tests. *)

Inductive number : Type :=
| NaN
| Infinity (negative : bool)
| Fin (q : Q).

Definition isNaN (v : option number) : bool :=
  match v with
  | Some NaN => true
  | Some _ => false
  | None => true   (* isNaN(undefined): ToNumber(undefined) is NaN *)
  end.

Module JsNumber.

Definition digitVal (radix : Z) (c : ascii) : option Z :=
  let n := Z.of_nat (nat_of_ascii c) in
  let v := if (48 <=? n) && (n <=? 57) then n - 48
           else if (97 <=? n) && (n <=? 102) then n - 87
           else if (65 <=? n) && (n <=? 70) then n - 55
           else radix in
  if v <? radix then Some v else None.

(** Longest run of digits at the front of [s]: accumulated value,
    number of digits read, and the rest. *)
Fixpoint digits (radix : Z) (s : string) (acc : Z) (n : nat) : Z * nat * string :=
  match s with
  | String c s' =>
      match digitVal radix c with
      | Some d => digits radix s' (acc * radix + d) (S n)
      | None => (acc, n, s)
      end
  | EmptyString => (acc, n, s)
  end.

Definition scale (m e : Z) : number :=
  Fin (Qred (inject_Z m * Qpower (10 # 1) e)).

(** NonDecimalIntegerLiteral after its two-character prefix. *)
Definition radixLiteral (radix : Z) (s : string) : number :=
  match digits radix s 0 0 with
  | (_, O, _) => NaN
  | (v, S _, EmptyString) => Fin (inject_Z v)
  | (_, S _, String _ _) => NaN
  end.

Definition exponentChar (c : ascii) : bool :=
  (Ascii.eqb c "e" || Ascii.eqb c "E")%bool.

(** StrUnsignedDecimalLiteral without the [Infinity] alternative; [sg]
    is [1] or [-1]. *)
Definition unsignedDecimal (sg : Z) (s : string) : number :=
  let '(i, ni, r1) := digits 10 s 0 0 in
  let '(m, nf, r2) :=
    match r1 with
    | String "." r => digits 10 r i 0
    | _ => (i, O, r1)
    end in
  match (ni + nf)%nat with
  | O => NaN
  | S _ =>
      match r2 with
      | EmptyString => scale (sg * m) (- Z.of_nat nf)
      | String c r3 =>
          if exponentChar c then
            let '(esg, r4) :=
              match r3 with
              | String "+" r => (1, r)
              | String "-" r => (-1, r)
              | _ => (1, r3)
              end in
            match digits 10 r4 0 0 with
            | (e, S _, EmptyString) => scale (sg * m) (esg * e - Z.of_nat nf)
            | _ => NaN
            end
          else NaN
      end
  end.

Definition strDecimalLiteral (sg : Z) (s : string) : number :=
  if String.eqb s "Infinity" then Infinity (sg <? 0)
  else unsignedDecimal sg s.

(** [Number(s)] on a string argument (StringToNumber). *)
Definition Number (s : string) : number :=
  match JsString.trim s with
  | EmptyString => Fin 0
  | String "0" (String "x" r) | String "0" (String "X" r) => radixLiteral 16 r
  | String "0" (String "o" r) | String "0" (String "O" r) => radixLiteral 8 r
  | String "0" (String "b" r) | String "0" (String "B" r) => radixLiteral 2 r
  | String "+" r => strDecimalLiteral 1 r
  | String "-" r => strDecimalLiteral (-1) r
  | t => strDecimalLiteral 1 t
  end.

End JsNumber.

(** ** Thrown values and results *)

(** What a [catch] clause can receive: an [Error] object with its
    message, or any other value. *)
Inductive Thrown : Type :=
| ErrorObject (message : string)
| OtherValue.

(** A computation that returns or throws. *)
Definition Result (A : Type) : Type := (Thrown + A)%type.

Definition rbind {A B : Type} (r : Result A) (k : A -> Result B) : Result B :=
  match r with
  | inl e => inl e
  | inr a => k a
  end.

(** Truthiness of a string-or-undefined value: [undefined] and the
    empty string are falsy. *)
Definition truthy (v : option string) : bool :=
  match v with
  | Some (String _ _) => true
  | Some EmptyString => false
  | None => false
  end.

(** [a || b] on such values. *)
Definition jsOr (a b : option string) : option string :=
  if truthy a then a else b.

(** A value interpolated in a template literal. *)
Definition interpolate (v : option string) : string :=
  match v with
  | Some s => s
  | None => "undefined"
  end.

(** ** The configuration module *)

Module Config.

(** The exported object: two nested plain objects, read by property
    name. *)
Record Environment : Type := {
  mapbox : gmap string string;
  garmin : gmap string string;
}.

(** What reading a property of [process.env] can give: the string of a
    variable, or the function or object that [Object.prototype] has
    under that name. *)
Inductive EnvValue : Type :=
| EnvString (s : string)
| Inherited (name : string).

(** The property names of [Object.prototype]; all of them hold a
    function or an object. *)
Definition objectPrototypeNames : list string :=
  ["constructor"; "toString"; "toLocaleString"; "valueOf"; "hasOwnProperty";
   "isPrototypeOf"; "propertyIsEnumerable"; "__proto__"; "__defineGetter__";
   "__defineSetter__"; "__lookupGetter__"; "__lookupSetter__"].

Definition inherited (key : string) : bool :=
  bool_decide (key ∈ objectPrototypeNames).

(** [process.env[key]]: the variable when it is set; otherwise the read
    goes on to the prototype, and is [undefined] only when that has no
    such property either. *)
Definition readEnv (processEnv : gmap string string) (key : string) : option EnvValue :=
  match processEnv !! key with
  | Some s => Some (EnvString s)
  | None =>
      if inherited key then Some (Inherited key) else None
  end.

(** Truthiness of what was read: functions and objects are truthy. *)
Definition truthyValue (v : option EnvValue) : bool :=
  match v with
  | Some (EnvString s) => truthy (Some s)
  | Some (Inherited _) => true
  | None => false
  end.

(** [a || b] on such values. *)
Definition orValue (a b : option EnvValue) : option EnvValue :=
  if truthyValue a then a else b.

(** [getEnv(key, defaultValue?)] over [process.env].  The declared
    result type is [string]; what is returned is whatever [value] is
    when it is truthy. *)
Definition getEnv (processEnv : gmap string string)
    (key : string) (defaultValue : option string) : Result EnvValue :=
  let value := readEnv processEnv key in
  if negb (truthyValue value) && negb (bool_decide (is_Some defaultValue)) then
    inl (ErrorObject ("Environment variable " ++ key ++ " is not set"))
  else
    inr (default (EnvString "")
           (orValue (orValue value (EnvString <$> defaultValue))
                    (Some (EnvString "")))).

(** A result of [getEnv] stored under its declared type [string].
    Neither key the module reads is a name of [Object.prototype], so
    the module only meets the first case. *)
Definition asString (v : EnvValue) : string :=
  match v with
  | EnvString s => s
  | Inherited name => name
  end.

(** Evaluation of the module body: the first [getEnv] that throws
    aborts the import. *)
Definition environment (processEnv : gmap string string) : Result Environment :=
  rbind (getEnv processEnv "MAPBOX_TOKEN" None) (fun token =>
  rbind (getEnv processEnv "GARMIN_MAPSHARE_URL"
           (Some "https://share.garmin.com/feed/share")) (fun mapshareBaseUrl =>
  inr {| mapbox := {[ "token" := asString token ]};
         garmin := {[ "mapshareBaseUrl" := asString mapshareBaseUrl ]} |})).

End Config.

(** ** Documents *)

Module Dom.

(** Element and text nodes; attributes, comments and processing
    instructions play no part in the selectors the code uses. *)
Inductive Node : Type :=
| Element (tagName : string) (childNodes : list Node)
| Text (data : string).

(** The children of the document node. *)
Definition Document : Type := list Node.

(** An element reached in a document, with the tag names of its
    ancestors, nearest first. *)
Record ElementRef : Type := {
  ancestors : list string;
  node : Node;
}.

Fixpoint textContentOf (n : Node) : string :=
  match n with
  | Text d => d
  | Element _ cs =>
      (fix go (cs : list Node) : string :=
         match cs with
         | [] => EmptyString
         | c :: cs' => textContentOf c ++ go cs'
         end) cs
  end.

Definition textContent (e : ElementRef) : string := textContentOf (node e).

(** A selector made of type selectors joined by descendant
    combinators, subject first: ["TimeStamp when"] is
    [["when"; "TimeStamp"]]. *)
Definition parseSelector (s : string) : list string :=
  rev (filter (fun t => t <> EmptyString) (JsString.split " " s)).

Fixpoint matchAncestors (sel anc : list string) {struct anc} : bool :=
  match sel, anc with
  | [], _ => true
  | _ :: _, [] => false
  | t :: sel', a :: anc' =>
      if String.eqb a t then matchAncestors sel' anc' else matchAncestors sel anc'
  end.

Definition matches (sel anc : list string) (tag : string) : bool :=
  match sel with
  | [] => false
  | t :: sel' => String.eqb t tag && matchAncestors sel' anc
  end.

(** First match in document order among [n] and its descendants. *)
Fixpoint findIn (sel anc : list string) (n : Node) : option ElementRef :=
  match n with
  | Text _ => None
  | Element tag cs =>
      if matches sel anc tag then Some {| ancestors := anc; node := n |}
      else
        (fix go (cs : list Node) : option ElementRef :=
           match cs with
           | [] => None
           | c :: cs' =>
               match findIn sel (tag :: anc) c with
               | Some r => Some r
               | None => go cs'
               end
           end) cs
  end.

Fixpoint findFirst (sel anc : list string) (ns : list Node) : option ElementRef :=
  match ns with
  | [] => None
  | n :: ns' =>
      match findIn sel anc n with
      | Some r => Some r
      | None => findFirst sel anc ns'
      end
  end.

(** [document.querySelector(s)] *)
Definition querySelector (s : string) (d : Document) : option ElementRef :=
  findFirst (parseSelector s) [] d.

(** [element.querySelector(s)]: descendants of the element only, but
    the selector is matched against the whole ancestor chain. *)
Definition elementQuerySelector (s : string) (e : ElementRef) : option ElementRef :=
  match node e with
  | Text _ => None
  | Element tag cs => findFirst (parseSelector s) (tag :: ancestors e) cs
  end.

End Dom.

(** ** Dates, the host and the network *)

(** A [Date] object: its time value in milliseconds since the epoch,
    or the invalid date. *)
Inductive Date : Type :=
| InvalidDate
| TimeValue (ms : Z).

(** What the browser supplies. *)
Record Host : Type := {
  (** [new DOMParser().parseFromString(text, "text/xml")] *)
  parseFromString : string -> Dom.Document;
  (** [new Date(text)] *)
  newDate : string -> Date;
  (** The message of the TypeError thrown when the value called is not
      a function, given the text of the callee. *)
  notAFunction : string -> string;
}.

(** Outcome of [fetch(url)] followed by [response.text()]. *)
Inductive FetchResult : Type :=
| Rejected (reason : Thrown)
| Responded (ok : bool) (text : Result string).

Definition Net : Type := string -> FetchResult.

(** ** The component *)

Module App.

Import Config Dom.

Record Location : Type := {
  lat : number;
  lng : number;
  timestamp : option Date;
}.

(** A position as the mapping library takes it: [[lng, lat]]. *)
Definition LngLat : Type := (number * number)%type.

Record Route : Type := {
  name : string;
  coordinates : list LngLat;
}.

(** A map object: its centre and its GeoJSON line sources by id, each
    holding [data.geometry.coordinates] of a LineString feature. *)
Record MapInstance : Type := {
  center : LngLat;
  zoom : Z;
  sources : gmap string (list LngLat);
  layers : list string;
}.

(** An element of class [mapboxgl-marker]: the [_lngLat] property the
    tick writes, and where the marker is drawn. *)
Record MarkerElement : Type := {
  _lngLat : LngLat;
  drawnAt : LngLat;
}.

(** Calls into the mapping library, as a log. *)
Inductive MapCall : Type :=
| NewMap (h : nat)
| AddSource (h : nat) (id : string)
| AddLayer (h : nat) (id : string)
| NewMarker (h : nat) (at_ : LngLat)
| SetCenter (h : nat) (c : LngLat)
| GetSource (h : nat) (id : string)
| GetData (h : nat) (id : string)
| SetData (h : nat) (id : string) (coords : list LngLat).

(** The component's React state, the objects it reaches through
    [window] and [document], and logs of what it did to the outside. *)
Record State : Type := {
  currentLocation : Location;
  plannedRoute : option Route;
  mapLoaded : bool;
  map : option nat;               (* null, or the identity of a map object *)
  isTracking : bool;
  error : option string;
  mapboxgl : bool;                (* window.mapboxgl is defined *)
  accessToken : option string;    (* window.mapboxgl.accessToken *)
  instances : gmap nat MapInstance;
  markers : list MarkerElement;   (* getElementsByClassName("mapboxgl-marker") *)
  requests : list string;         (* URLs passed to fetch, oldest first *)
  mapCalls : list MapCall;        (* oldest first *)
  console : list string;          (* console.error lines, oldest first *)
}.

(** The period of the polling timer, in milliseconds. *)
Definition TRACKING_INTERVAL : Z := 2 * 60 * 1000.

Definition initialLocation : Location :=
  {| lat := Fin 0; lng := Fin 0; timestamp := None |}.

(** The component at mount; [loaded] says whether the library script
    has defined [window.mapboxgl]. *)
Definition initialState (loaded : bool) : State :=
  {| currentLocation := initialLocation; plannedRoute := None;
     mapLoaded := false; map := None; isTracking := false; error := None;
     mapboxgl := loaded; accessToken := None; instances := ∅; markers := [];
     requests := []; mapCalls := []; console := [] |}.

(** *** Field updates *)

Definition setCurrentLocation (l : Location) (st : State) : State :=
  {| currentLocation := l; plannedRoute := plannedRoute st;
     mapLoaded := mapLoaded st; map := map st; isTracking := isTracking st;
     error := error st; mapboxgl := mapboxgl st; accessToken := accessToken st;
     instances := instances st; markers := markers st;
     requests := requests st; mapCalls := mapCalls st; console := console st |}.

Definition setError (e : option string) (st : State) : State :=
  {| currentLocation := currentLocation st; plannedRoute := plannedRoute st;
     mapLoaded := mapLoaded st; map := map st; isTracking := isTracking st;
     error := e; mapboxgl := mapboxgl st; accessToken := accessToken st;
     instances := instances st; markers := markers st;
     requests := requests st; mapCalls := mapCalls st; console := console st |}.

Definition setMapLoaded (b : bool) (st : State) : State :=
  {| currentLocation := currentLocation st; plannedRoute := plannedRoute st;
     mapLoaded := b; map := map st; isTracking := isTracking st;
     error := error st; mapboxgl := mapboxgl st; accessToken := accessToken st;
     instances := instances st; markers := markers st;
     requests := requests st; mapCalls := mapCalls st; console := console st |}.

Definition setMap (m : option nat) (st : State) : State :=
  {| currentLocation := currentLocation st; plannedRoute := plannedRoute st;
     mapLoaded := mapLoaded st; map := m; isTracking := isTracking st;
     error := error st; mapboxgl := mapboxgl st; accessToken := accessToken st;
     instances := instances st; markers := markers st;
     requests := requests st; mapCalls := mapCalls st; console := console st |}.

Definition setAccessToken (t : option string) (st : State) : State :=
  {| currentLocation := currentLocation st; plannedRoute := plannedRoute st;
     mapLoaded := mapLoaded st; map := map st; isTracking := isTracking st;
     error := error st; mapboxgl := mapboxgl st; accessToken := t;
     instances := instances st; markers := markers st;
     requests := requests st; mapCalls := mapCalls st; console := console st |}.

Definition withInstances (i : gmap nat MapInstance) (st : State) : State :=
  {| currentLocation := currentLocation st; plannedRoute := plannedRoute st;
     mapLoaded := mapLoaded st; map := map st; isTracking := isTracking st;
     error := error st; mapboxgl := mapboxgl st; accessToken := accessToken st;
     instances := i; markers := markers st;
     requests := requests st; mapCalls := mapCalls st; console := console st |}.

Definition withMarkers (ms : list MarkerElement) (st : State) : State :=
  {| currentLocation := currentLocation st; plannedRoute := plannedRoute st;
     mapLoaded := mapLoaded st; map := map st; isTracking := isTracking st;
     error := error st; mapboxgl := mapboxgl st; accessToken := accessToken st;
     instances := instances st; markers := ms;
     requests := requests st; mapCalls := mapCalls st; console := console st |}.

Definition logRequest (url : string) (st : State) : State :=
  {| currentLocation := currentLocation st; plannedRoute := plannedRoute st;
     mapLoaded := mapLoaded st; map := map st; isTracking := isTracking st;
     error := error st; mapboxgl := mapboxgl st; accessToken := accessToken st;
     instances := instances st; markers := markers st;
     requests := (requests st ++ [url])%list; mapCalls := mapCalls st;
     console := console st |}.

Definition logMapCall (c : MapCall) (st : State) : State :=
  {| currentLocation := currentLocation st; plannedRoute := plannedRoute st;
     mapLoaded := mapLoaded st; map := map st; isTracking := isTracking st;
     error := error st; mapboxgl := mapboxgl st; accessToken := accessToken st;
     instances := instances st; markers := markers st;
     requests := requests st; mapCalls := (mapCalls st ++ [c])%list;
     console := console st |}.

Definition consoleError (line : string) (st : State) : State :=
  {| currentLocation := currentLocation st; plannedRoute := plannedRoute st;
     mapLoaded := mapLoaded st; map := map st; isTracking := isTracking st;
     error := error st; mapboxgl := mapboxgl st; accessToken := accessToken st;
     instances := instances st; markers := markers st;
     requests := requests st; mapCalls := mapCalls st;
     console := (console st ++ [line])%list |}.

(** *** Statements that may throw, over the state *)

Definition M (A : Type) : Type := State -> Result A * State.

Definition ret {A : Type} (a : A) : M A := fun st => (inr a, st).

Definition bind {A B : Type} (m : M A) (k : A -> M B) : M B :=
  fun st =>
    match m st with
    | (inl e, st') => (inl e, st')
    | (inr a, st') => k a st'
    end.

Definition throw {A : Type} (e : Thrown) : M A := fun st => (inl e, st).

Definition act (f : State -> State) : M unit := fun st => (inr tt, f st).

Definition read {A : Type} (f : State -> A) : M A := fun st => (inr (f st), st).

Notation "'let*' x ':=' m 'in' k" := (bind m (fun x => k))
  (at level 10, x name, m at level 100, k at level 200).
Notation "m ';;;' k" := (bind m (fun _ => k))
  (at level 100, k at level 200, right associativity).

(** *** The network and the mapping library *)

(** [await fetch(url)]: the request is issued, then the promise
    settles. *)
Definition fetch (net : Net) (url : string) : M (bool * Result string) :=
  fun st =>
    let st' := logRequest url st in
    match net url with
    | Rejected e => (inl e, st')
    | Responded ok text => (inr (ok, text), st')
    end.

(** [await response.text()] *)
Definition awaitText (text : Result string) : M string := fun st => (text, st).

Definition withCenter (c : LngLat) (m : MapInstance) : MapInstance :=
  {| center := c; zoom := zoom m; sources := sources m; layers := layers m |}.

Definition withSources (s : gmap string (list LngLat)) (m : MapInstance) : MapInstance :=
  {| center := center m; zoom := zoom m; sources := s; layers := layers m |}.

Definition withLayers (l : list string) (m : MapInstance) : MapInstance :=
  {| center := center m; zoom := zoom m; sources := sources m; layers := l |}.

(** The coordinates held by source [id] of map [h], if there is one. *)
Definition sourceData (h : nat) (id : string) (st : State) : option (list LngLat) :=
  m ← instances st !! h; sources m !! id.

(** [map.setCenter(c)] *)
Definition setCenter (h : nat) (c : LngLat) : M unit :=
  act (fun st => logMapCall (SetCenter h c)
                   (withInstances (alter (withCenter c) h (instances st)) st)).

(** [map.getSource(id)]: the source, named by its map and id, or
    [undefined]. *)
Definition getSource (h : nat) (id : string) : M (option (nat * string)) :=
  fun st =>
    (inr (match sourceData h id st with Some _ => Some (h, id) | None => None end),
     logMapCall (GetSource h id) st).

(** [source.getData().geometry.coordinates] *)
Definition getData (src : nat * string) : M (list LngLat) :=
  fun st =>
    (inr (default [] (sourceData src.1 src.2 st)),
     logMapCall (GetData src.1 src.2) st).

(** [source.setData(feature)] with a LineString of [coords]. *)
Definition setData (src : nat * string) (coords : list LngLat) : M unit :=
  act (fun st =>
         logMapCall (SetData src.1 src.2 coords)
           (withInstances
              (alter (fun m => withSources (<[src.2 := coords]> (sources m)) m)
                     src.1 (instances st)) st)).

(** [if (markers[0]) { markers[0]._lngLat = {lng, lat};
    markers[0].update(); }].  The assignment adds the property to the
    element; the element has no [update], so the call throws and
    nothing is redrawn. *)
Definition moveFirstMarker (host : Host) (c : LngLat) : M unit :=
  let* ms := read markers in
  match ms with
  | first :: rest =>
      act (withMarkers ({| _lngLat := c; drawnAt := drawnAt first |} :: rest)) ;;;
      throw (ErrorObject (notAFunction host "markers[0].update"))
  | [] => ret tt
  end.

(** *** fetchGarminLocation *)

(** The request address, [`${MAPSHARE_BASE_URL}/${mapshareId}/kml`],
    with [MAPSHARE_BASE_URL = environment.garmin.mapshareBaseUrl]. *)
Definition feedUrl (environment : Environment) : string :=
  let MAPSHARE_BASE_URL := garmin environment !! "mapshareBaseUrl" in
  let mapshareId := garmin environment !! "mapshareId" in
  interpolate MAPSHARE_BASE_URL ++ "/" ++ interpolate mapshareId ++ "/kml".

(** From the response text to [lng], [lat] and [timestamp]: the part
    of the [try] block between [response.text()] and the first state
    update.  It touches no state; it returns or throws. *)
Definition parseKml (host : Host) (kmlText : string) : Result (number * number * Date) :=
  let kmlDoc := parseFromString host kmlText in
  match querySelector "Placemark" kmlDoc with
  | None => inl (ErrorObject "No location data found")
  | Some placemark =>
      let coordinatesElement := elementQuerySelector "coordinates" placemark in
      let timestampElement := elementQuerySelector "TimeStamp when" placemark in
      match coordinatesElement, timestampElement with
      | Some coordinatesElement, Some timestampElement =>
          let coordinates := JsString.trim (textContent coordinatesElement) in
          let parts : list number :=
            JsNumber.Number <$> JsString.split "," coordinates in
          let lng := parts !! 0%nat in
          let lat := parts !! 1%nat in
          let timestamp := newDate host (textContent timestampElement) in
          if isNaN lat || isNaN lng then
            inl (ErrorObject "Invalid coordinates in KML")
          else
            match lng, lat with
            | Some lng, Some lat => inr (lng, lat, timestamp)
            | _, _ =>
                (* not reached: isNaN(undefined) holds *)
                inl (ErrorObject "Invalid coordinates in KML")
            end
      | _, _ => inl (ErrorObject "Invalid KML data structure")
      end
  end.

(** The part of the [try] block under [if (map)]. *)
Definition updateMap (host : Host) (map : option nat) (c : LngLat) : M unit :=
  match map with
  | Some map =>
      setCenter map c ;;;
      moveFirstMarker host c ;;;
      let* source := getSource map "tracking-history" in
      match source with
      | Some source =>
          let* existingData := getData source in
          let newCoordinates := (existingData ++ [c])%list in
          setData source newCoordinates
      | None => ret tt
      end
  | None => ret tt
  end.

(** The body of the [try] block.  [map] is the value the callback
    closed over. *)
Definition tryBlock (environment : Environment) (host : Host) (net : Net)
    (map : option nat) : M unit :=
  let* response := fetch net (feedUrl environment) in
  if negb response.1 then throw (ErrorObject "Failed to fetch location data") else
  let* kmlText := awaitText response.2 in
  let* parsed := (fun st => (parseKml host kmlText, st)) in
  let '(lng, lat, timestamp) := parsed in
  act (setCurrentLocation {| lat := lat; lng := lng; timestamp := Some timestamp |}) ;;;
  act (setError None) ;;;
  updateMap host map (lng, lat).

(** The [catch] clause. *)
Definition catchClause (e : Thrown) (st : State) : State :=
  let message := match e with
                 | ErrorObject m => m
                 | OtherValue => "Unknown error"
                 end in
  setError (Some ("Failed to fetch location: " ++ message))
    (consoleError ("Error fetching Garmin location: " ++ message) st).

(** One sync tick. *)
Definition fetchGarminLocation (environment : Environment) (host : Host)
    (net : Net) (st : State) : State :=
  let mapshareId := garmin environment !! "mapshareId" in
  if negb (truthy mapshareId) then
    setError (Some "MapShare ID not configured in environment") st
  else
    match tryBlock environment host net (map st) st with
    | (inr _, st') => st'
    | (inl e, st') => catchClause e st'
    end.

(** *** initializeMap and the load handler *)

(** The identity given to the next map object. *)
Definition nextHandle (st : State) : nat := fresh (dom (instances st)).

Definition initializeMap (environment : Environment) (st : State) : State :=
  if negb (mapboxgl st) then consoleError "Mapbox GL JS not loaded" st
  else
    let mapboxToken := mapbox environment !! "token" in
    if negb (truthy mapboxToken) then
      setError (Some "Mapbox token not configured in environment") st
    else
      let mapInstance := nextHandle st in
      logMapCall (NewMap mapInstance)
        (withInstances
           (<[mapInstance := {| center := (Fin (-149 # 2), Fin 40); zoom := 9;
                                sources := ∅; layers := [] |}]> (instances st))
           (setAccessToken mapboxToken st)).

Definition addSource (h : nat) (id : string) (st : State) : State :=
  logMapCall (AddSource h id)
    (withInstances
       (alter (fun m => withSources (<[id := []]> (sources m)) m) h (instances st)) st).

Definition addLayer (h : nat) (id : string) (st : State) : State :=
  logMapCall (AddLayer h id)
    (withInstances
       (alter (fun m => withLayers (layers m ++ [id])%list m) h (instances st)) st).

(** The callback registered with [mapInstance.on("load", ...)].  The
    marker is placed at the [currentLocation] that [initializeMap]
    closed over, which is the one of the first render. *)
Definition onLoad (mapInstance : nat) (st : State) : State :=
  let st := setMapLoaded true st in
  let st := setMap (Some mapInstance) st in
  let st := addSource mapInstance "route" st in
  let st := addSource mapInstance "tracking-history" st in
  let st := addLayer mapInstance "route" st in
  let st := addLayer mapInstance "tracking-history" st in
  let at_ := (lng initialLocation, lat initialLocation) in
  logMapCall (NewMarker mapInstance at_)
    (withMarkers (markers st ++ [{| _lngLat := at_; drawnAt := at_ |}])%list st).

(** *** The polling loop *)

(** Modelled from the spec: the repeating timer of the Tracking state
    (section 4.3), whose effect is not among the source files.  Every
    [TRACKING_INTERVAL] it runs one tick against the network as it is
    then; a failed tick neither stops the timer nor is retried early. *)
Fixpoint syncLoop (environment : Environment) (host : Host)
    (nets : list Net) (st : State) : State :=
  match nets with
  | [] => st
  | net :: nets' =>
      syncLoop environment host nets' (fetchGarminLocation environment host net st)
  end.

(** A tick has failed when it leaves a message in the error slot. *)
Definition tickFailed (environment : Environment) (host : Host)
    (net : Net) (st : State) : bool :=
  bool_decide (is_Some (error (fetchGarminLocation environment host net st))).

(** Number of failed ticks of a run. *)
Fixpoint failures (environment : Environment) (host : Host)
    (nets : list Net) (st : State) : nat :=
  match nets with
  | [] => 0
  | net :: nets' =>
      ((if tickFailed environment host net st then 1 else 0)
       + failures environment host nets' (fetchGarminLocation environment host net st))%nat
  end.

End App.

(** ** A reference host

    A small host to run the tick on concrete feeds: an XML reader for
    documents made of tags and text, and a reader for the date-time
    format [YYYY-MM-DDTHH:mm:ssZ]. *)

Module RefHost.

Import Dom.

Inductive Token : Type :=
| TOpen (n : string)
| TClose (n : string)
| TEmpty (n : string)
| TText (s : string)
| TSkip
| TBad.

(** The tag name: the markup up to the first white space or slash. *)
Fixpoint tagNameOf (s : string) : string :=
  match s with
  | String c s' =>
      if JsString.isWhiteSpace c || Ascii.eqb c "/" then EmptyString
      else String c (tagNameOf s')
  | EmptyString => EmptyString
  end.

Fixpoint lastChar (s : string) : option ascii :=
  match s with
  | EmptyString => None
  | String c EmptyString => Some c
  | String _ s' => lastChar s'
  end.

(** The token for the markup between [<] and [>]. *)
Definition tagToken (s : string) : Token :=
  match s with
  | String "/" r => TClose (tagNameOf r)
  | String "?" _ | String "!" _ => TSkip
  | EmptyString => TBad
  | _ =>
      match tagNameOf s, lastChar s with
      | EmptyString, _ => TBad
      | n, Some "/"%char => TEmpty n
      | n, _ => TOpen n
      end
  end.

Definition textToken (buf : string) : list Token :=
  match buf with
  | EmptyString => []
  | _ => [TText buf]
  end.

Fixpoint lex (inTag : bool) (buf : string) (s : string) : list Token :=
  match s with
  | EmptyString => if inTag then [TBad] else textToken buf
  | String c s' =>
      if inTag then
        if Ascii.eqb c ">" then tagToken buf :: lex false EmptyString s'
        else lex true (buf ++ String c EmptyString) s'
      else
        if Ascii.eqb c "<" then (textToken buf ++ lex true EmptyString s')%list
        else lex false (buf ++ String c EmptyString) s'
  end.

(** Tree building with a stack of open elements; [cur] holds the
    children read so far at the current level, newest first. *)
Fixpoint build (toks : list Token) (stack : list (string * list Node))
    (cur : list Node) : option (list Node) :=
  match toks with
  | [] =>
      match stack with
      | [] => Some (rev cur)
      | _ :: _ => None
      end
  | TOpen n :: ts => build ts ((n, cur) :: stack) []
  | TClose n :: ts =>
      match stack with
      | (m, outer) :: stack' =>
          if String.eqb n m then build ts stack' (Element m (rev cur) :: outer)
          else None
      | [] => None
      end
  | TEmpty n :: ts => build ts stack (Element n [] :: cur)
  | TText t :: ts => build ts stack (Text t :: cur)
  | TSkip :: ts => build ts stack cur
  | TBad :: _ => None
  end.

Definition isBlankText (n : Node) : bool :=
  match n with
  | Text d => String.eqb (JsString.trim d) EmptyString
  | Element _ _ => false
  end.

Definition parserError : Document :=
  [Element "parsererror" [Text "error on line 1"]].

(** A well-formed document has exactly one root element. *)
Definition xmlParse (text : string) : Document :=
  match build (lex false EmptyString text) [] [] with
  | Some top =>
      match List.filter (fun n => negb (isBlankText n)) top with
      | [Element t cs] => [Element t cs]
      | _ => parserError
      end
  | None => parserError
  end.

(** Days from 1970-01-01 to a date of the proleptic Gregorian
    calendar. *)
Definition daysFromCivil (y m d : Z) : Z :=
  let y := if m <=? 2 then y - 1 else y in
  let era := y / 400 in
  let yoe := y - era * 400 in
  let doy := (153 * (if 2 <? m then m - 3 else m + 9) + 2) / 5 + d - 1 in
  let doe := yoe * 365 + yoe / 4 - yoe / 100 + doy in
  era * 146097 + doe - 719468.

Definition two (a b : ascii) : option Z :=
  match JsNumber.digitVal 10 a, JsNumber.digitVal 10 b with
  | Some x, Some y => Some (10 * x + y)
  | _, _ => None
  end.

Definition daysInMonth (y m : Z) : Z :=
  if m =? 2 then
    if ((y mod 4 =? 0) && negb (y mod 100 =? 0)) || (y mod 400 =? 0) then 29 else 28
  else if (m =? 4) || (m =? 6) || (m =? 9) || (m =? 11) then 30 else 31.

Definition isoDate (s : string) : Date :=
  match s with
  | String y1 (String y2 (String y3 (String y4 (String "-"
    (String m1 (String m2 (String "-" (String d1 (String d2 (String "T"
    (String h1 (String h2 (String ":" (String n1 (String n2 (String ":"
    (String s1 (String s2 (String "Z" EmptyString))))))))))))))))))) =>
      match two y1 y2, two y3 y4, two m1 m2, two d1 d2,
            two h1 h2, two n1 n2, two s1 s2 with
      | Some yh, Some yl, Some mo, Some d, Some h, Some mi, Some sec =>
          let y := 100 * yh + yl in
          if (1 <=? mo) && (mo <=? 12) && (1 <=? d) && (d <=? daysInMonth y mo)
             && (h <=? 23) && (mi <=? 59) && (sec <=? 59)
          then TimeValue
                 ((daysFromCivil y mo d * 86400 + h * 3600 + mi * 60 + sec) * 1000)
          else InvalidDate
      | _, _, _, _, _, _, _ => InvalidDate
      end
  | _ => InvalidDate
  end.

Definition host : Host :=
  {| parseFromString := xmlParse; newDate := isoDate;
     notAFunction := fun callee => callee ++ " is not a function" |}.

End RefHost.

Import Config Dom App.

(** ** The rest of the component: the mount effect and the view *)

Module Page.

(** An element created by the component, with the properties the
    code assigns. *)
Record HtmlElement : Type := {
  tag : string;
  attributes : list (string * string);
}.

(** The two places the effect appends to, each a list of nodes with
    their identity, and the identity the next created node gets. *)
Record Document : Type := {
  head : list (nat * HtmlElement);
  body : list (nat * HtmlElement);
  nextNode : nat;
}.

(** [document.createElement(tag)]: a new node, in no list yet; what
    the node is, is said when it is appended. *)
Definition createElement (t : string) (d : Document) : nat * Document :=
  (nextNode d,
   {| head := head d; body := body d; nextNode := S (nextNode d) |}).

Definition appendToBody (n : nat) (e : HtmlElement) (d : Document) : Document :=
  {| head := head d; body := (body d ++ [(n, e)])%list; nextNode := nextNode d |}.

Definition appendToHead (n : nat) (e : HtmlElement) (d : Document) : Document :=
  {| head := (head d ++ [(n, e)])%list; body := body d; nextNode := nextNode d |}.

(** [node.remove()]: the node leaves its parent, wherever it is. *)
Definition remove (n : nat) (d : Document) : Document :=
  {| head := List.filter (fun x => negb (Nat.eqb x.1 n)) (head d);
     body := List.filter (fun x => negb (Nat.eqb x.1 n)) (body d);
     nextNode := nextNode d |}.

Definition scriptElement : HtmlElement :=
  {| tag := "script";
     attributes :=
       [("src", "https://cdnjs.cloudflare.com/ajax/libs/mapbox-gl/2.15.0/mapbox-gl.js");
        ("async", "true"); ("onload", "initializeMap")] |}.

Definition linkElement : HtmlElement :=
  {| tag := "link";
     attributes :=
       [("href", "https://cdnjs.cloudflare.com/ajax/libs/mapbox-gl/2.15.0/mapbox-gl.css");
        ("rel", "stylesheet")] |}.

(** The effect run at mount: the document after it, and the cleanup
    it returns. *)
Definition mountEffect (d : Document) : Document * (Document -> Document) :=
  let '(script, d) := createElement "script" d in
  let d := appendToBody script scriptElement d in
  let '(link, d) := createElement "link" d in
  let d := appendToHead link linkElement d in
  (d, fun d' => remove link (remove script d')).

End Page.

Module View.

Import App.

(** The event handlers the view installs. *)
Inductive Handler : Type :=
| OpenRouteUpload      (* () => document.getElementById("route-upload")?.click() *)
| ToggleTracking       (* () => setIsTracking(!isTracking) *)
| HandleFileUpload.    (* handleFileUpload *)

Inductive PropValue : Type :=
| PString (s : string)
| PHandler (h : Handler).

(** The element tree a render returns. *)
Inductive VNode : Type :=
| VElement (type : string) (props : list (string * PropValue)) (children : list VNode)
| VText (s : string).

(** [{cond && node}] among children: nothing when [cond] is falsy. *)
Definition when {A : Type} (cond : option A) (node : A -> VNode) : list VNode :=
  match cond with
  | Some a => [node a]
  | None => []
  end.

(** A string-or-null value as a condition: the empty string is falsy
    too. *)
Definition nonEmpty (v : option string) : option string :=
  if truthy v then v else None.

(** The [return] of the component.  [toLocaleString] is the host's
    rendering of a date. *)
Definition render (toLocaleString : Date -> string) (st : State) : VNode :=
  VElement "Card" [("className", PString "w-full max-w-4xl")]
    [VElement "CardHeader" []
       [VElement "CardTitle" [("className", PString "flex items-center justify-between")]
          [VElement "span" [] [VText "Waypoint"];
           VElement "div" [("className", PString "flex gap-2")]
             [VElement "Button"
                [("variant", PString "outline"); ("onClick", PHandler OpenRouteUpload)]
                [VElement "Upload" [("className", PString "w-4 h-4 mr-2")] [];
                 VText "Upload Route"];
              VElement "Button"
                [("variant", PString (if isTracking st then "destructive" else "default"));
                 ("onClick", PHandler ToggleTracking)]
                (if isTracking st then
                   [VElement "Pause" [("className", PString "w-4 h-4 mr-2")] [];
                    VText "Stop Tracking"]
                 else
                   [VElement "Play" [("className", PString "w-4 h-4 mr-2")] [];
                    VText "Start Tracking"])]]];
     VElement "CardContent" []
       ([VElement "input"
           [("type", PString "file"); ("id", PString "route-upload");
            ("className", PString "hidden"); ("accept", PString ".json,.gpx");
            ("onChange", PHandler HandleFileUpload)] []]
        ++ when (nonEmpty (error st)) (fun error =>
             VElement "Alert"
               [("variant", PString "destructive"); ("className", PString "mb-4")]
               [VElement "AlertDescription" [] [VText error]])
        ++ when (timestamp (currentLocation st)) (fun timestamp =>
             VElement "div" [("className", PString "mb-4 text-sm text-gray-500")]
               [VText "Last updated: "; VText (toLocaleString timestamp)])
        ++ [VElement "div"
              [("id", PString "map");
               ("className", PString "w-full h-96 rounded-lg overflow-hidden")] []])%list].

Definition setIsTracking (b : bool) (st : State) : State :=
  {| currentLocation := currentLocation st; plannedRoute := plannedRoute st;
     mapLoaded := mapLoaded st; map := map st; isTracking := b;
     error := error st; mapboxgl := mapboxgl st; accessToken := accessToken st;
     instances := instances st; markers := markers st;
     requests := requests st; mapCalls := mapCalls st; console := console st |}.

(** The click handler of the tracking button. *)
Definition toggleTracking (st : State) : State :=
  setIsTracking (negb (isTracking st)) st.

(** All elements of a given type in a tree, in document order. *)
Fixpoint elementsOf (type : string) (v : VNode) : list VNode :=
  match v with
  | VText _ => []
  | VElement t _ cs =>
      ((if String.eqb t type then [v] else [])
       ++ (fix go (cs : list VNode) : list VNode :=
             match cs with
             | [] => []
             | c :: cs' => elementsOf type c ++ go cs'
             end) cs)%list
  end.

(** The text a tree shows. *)
Fixpoint textOf (v : VNode) : string :=
  match v with
  | VText s => s
  | VElement _ _ cs =>
      (fix go (cs : list VNode) : string :=
         match cs with
         | [] => EmptyString
         | c :: cs' => textOf c ++ go cs'
         end) cs
  end.

End View.

(** * Vocabulary of the properties *)

(** What the network and parsing steps of a tick come to, given the
    settled request. *)
Definition feedResult (host : Host) (r : FetchResult) : Result (number * number * Date) :=
  match r with
  | Rejected e => inl e
  | Responded false _ => inl (ErrorObject "Failed to fetch location data")
  | Responded true text => rbind text (parseKml host)
  end.

(** Whether an element named [tag] is [n] or lies below it. *)
Fixpoint occurs (tag : string) (n : Node) : bool :=
  match n with
  | Text _ => false
  | Element t cs => String.eqb t tag || existsb (occurs tag) cs
  end.

(** An element has no descendant named [tag]. *)
Definition lacks (tag : string) (e : ElementRef) : bool :=
  match node e with
  | Element _ cs => negb (existsb (occurs tag) cs)
  | Text _ => true
  end.

(** The state a tick has reached once its feed is read: the request
    logged, the location stored and the error cleared. *)
Definition committed (env : Environment) (loc : Location) (st : State) : State :=
  setError None (setCurrentLocation loc (logRequest (feedUrl env) st)).

(** The message a tick leaves when the call of [update] on the marker
    element has thrown. *)
Definition markerUpdateMessage (host : Host) : string :=
  "Failed to fetch location: " ++ notAFunction host "markers[0].update".

(** Whether the map update of a tick started in [st] comes to call
    [update]: the component holds a map and the document has a marker
    element. *)
Definition reachesMarkerUpdate (st : State) : bool :=
  match map st, markers st with
  | Some _, _ :: _ => true
  | _, _ => false
  end.

(** Whether a tick gets as far as a location: the identifier is
    configured and the feed gives coordinates and a date. *)
Definition feedRead (env : Environment) (host : Host) (net : Net) : bool :=
  truthy (garmin env !! "mapshareId")
  && match feedResult host (net (feedUrl env)) with
     | inr _ => true
     | inl _ => false
     end.

(** The ways a tick ends: at the configuration guard; in the [catch]
    clause before anything was stored; after the commit and a map
    update that returned; in the [catch] clause after the commit,
    thrown at from within the map update. *)
Inductive TickOutcome (env : Environment) (host : Host) (net : Net)
    (st : State) : State -> Prop :=
| TickUnconfigured :
    truthy (garmin env !! "mapshareId") = false ->
    TickOutcome env host net st
      (setError (Some "MapShare ID not configured in environment") st)
| TickCaught (e : Thrown) :
    truthy (garmin env !! "mapshareId") = true ->
    feedResult host (net (feedUrl env)) = inl e ->
    TickOutcome env host net st (catchClause e (logRequest (feedUrl env) st))
| TickCommitted (lng lat : number) (ts : Date) (st' : State) :
    truthy (garmin env !! "mapshareId") = true ->
    feedResult host (net (feedUrl env)) = inr (lng, lat, ts) ->
    updateMap host (map st) (lng, lat)
      (committed env {| lat := lat; lng := lng; timestamp := Some ts |} st)
    = (inr tt, st') ->
    TickOutcome env host net st st'
| TickThrown (lng lat : number) (ts : Date) (e : Thrown) (st' : State) :
    truthy (garmin env !! "mapshareId") = true ->
    feedResult host (net (feedUrl env)) = inr (lng, lat, ts) ->
    updateMap host (map st) (lng, lat)
      (committed env {| lat := lat; lng := lng; timestamp := Some ts |} st)
    = (inl e, st') ->
    TickOutcome env host net st (catchClause e st').

(** Length of the tracking history of map [h]; zero while the source
    does not exist. *)
Definition historyLength (h : nat) (st : State) : nat :=
  length (default [] (sourceData h "tracking-history" st)).

(** The optional altitude after the latitude. *)
Definition altitudeSuffix (alt : option string) : string :=
  match alt with
  | Some a => "," ++ a
  | None => EmptyString
  end.

(** The comma-separated components of the trimmed text of a
    [coordinates] element. *)
Definition components (coordinatesElement : ElementRef) : list string :=
  JsString.split "," (JsString.trim (textContent coordinatesElement)).

(** A string of white space only (the empty string included). *)
Fixpoint blank (s : string) : bool :=
  match s with
  | EmptyString => true
  | String c s' => JsString.isWhiteSpace c && blank s'
  end.

(** ** Concrete scenarios *)

Module Scenario.

(** An environment object that does carry a feed identifier. *)
Definition env : Environment :=
  {| mapbox := {[ "token" := "pk.test" ]};
     garmin := <[ "mapshareId" := "hiker42" ]>
                 {[ "mapshareBaseUrl" := "https://share.garmin.com/feed/share" ]} |}.

(** A process environment that sets the map token and nothing else. *)
Definition tokenOnly : gmap string string := {[ "MAPBOX_TOKEN" := "pk.test" ]}.

(** The object the configuration module exports for it. *)
Definition exported : Environment :=
  {| mapbox := {[ "token" := "pk.test" ]};
     garmin := {[ "mapshareBaseUrl" := "https://share.garmin.com/feed/share" ]} |}.

(** A network that answers every request with status 200 and [body]. *)
Definition serving (body : string) : Net := fun _ => Responded true (inr body).

(** A network that answers with a non-success status. *)
Definition notFound : Net := fun _ => Responded false (inr "Not Found").

Definition placemark (coordinates when : string) : string :=
  "<Placemark><coordinates>" ++ coordinates ++ "</coordinates><TimeStamp><when>"
  ++ when ++ "</when></TimeStamp></Placemark>".

(** The feed body of the specification's example. *)
Definition goodBody : string := placemark "-74.5,40.1,0" "2024-01-01T00:00:00Z".

(** A feed without a timestamp. *)
Definition noTimestampBody : string :=
  "<Placemark><coordinates>-74.5,40.1,0</coordinates></Placemark>".

(** The elements the tick finds in a feed body read by the reference
    host. *)
Definition found (o : option ElementRef) : ElementRef :=
  default {| ancestors := []; node := Text EmptyString |} o.

Definition placemarkOf (body : string) : ElementRef :=
  found (querySelector "Placemark" (RefHost.xmlParse body)).

Definition coordinatesOf (body : string) : ElementRef :=
  found (elementQuerySelector "coordinates" (placemarkOf body)).

Definition whenOf (body : string) : ElementRef :=
  found (elementQuerySelector "TimeStamp when" (placemarkOf body)).

(** The component once the library script has run [initializeMap], before
    the map's load event. *)
Definition beforeReady : State := initializeMap env (initialState true).

(** The same component after the load event of the map it created. *)
Definition ready : State := onLoad (nextHandle (initialState true)) beforeReady.

End Scenario.

(** * Properties *)

(** ** Splitting at commas *)

Lemma append_empty_r (s : string) : s ++ EmptyString = s.
Proof.
  induction s as [|c s IH]; [reflexivity|].
  change (String c (s ++ EmptyString) = String c s). by rewrite IH.
Qed.

Lemma split_nonempty (sep : ascii) (s : string) : JsString.split sep s <> [].
Proof.
  destruct s as [|c s]; simpl; [discriminate|].
  destruct (Ascii.eqb c sep); [discriminate|].
  destruct (JsString.split sep s); discriminate.
Qed.

(** A separator-free prefix followed by the separator is the first
    component. *)
Lemma split_app_sep (sep : ascii) (a rest : string) :
  JsString.contains sep a = false ->
  JsString.split sep (a ++ String sep rest) = a :: JsString.split sep rest.
Proof.
  induction a as [|c a IH]; simpl; intros H.
  - by rewrite Ascii.eqb_refl.
  - apply orb_false_iff in H as [Hc Ha].
    rewrite Hc, (IH Ha). reflexivity.
Qed.

(** A separator-free string is its own single component. *)
Lemma split_no_sep (sep : ascii) (a : string) :
  JsString.contains sep a = false -> JsString.split sep a = [a].
Proof.
  induction a as [|c a IH]; simpl; intros H; [reflexivity|].
  apply orb_false_iff in H as [Hc Ha].
  rewrite Hc, (IH Ha). reflexivity.
Qed.

(** ** The platform functions on small inputs *)

Example Number_examples :
  JsNumber.Number "-74.5" = Fin (-149 # 2)
  /\ JsNumber.Number " 40.10 " = Fin (401 # 10)
  /\ JsNumber.Number "1e3" = Fin 1000
  /\ JsNumber.Number ".5" = Fin (1 # 2)
  /\ JsNumber.Number "0x1F" = Fin 31
  /\ JsNumber.Number "" = Fin 0
  /\ JsNumber.Number "-Infinity" = Infinity true
  /\ JsNumber.Number "abc" = NaN
  /\ JsNumber.Number "12.3.4" = NaN
  /\ JsNumber.Number "1e" = NaN
  /\ JsNumber.Number "-0x10" = NaN.
Proof. vm_compute. by repeat split. Qed.

Example split_examples :
  JsString.split "," "abc,12.3" = ["abc"; "12.3"]
  /\ JsString.split "," "" = [""]
  /\ JsString.split "," "1,2," = ["1"; "2"; ""]
  /\ JsString.split "," "12.3" = ["12.3"].
Proof. by repeat split. Qed.

Example querySelector_examples :
  let doc := RefHost.xmlParse
    "<kml><Document><Placemark><name>a</name><TimeStamp><when>t</when></TimeStamp><Point><coordinates> 1,2 </coordinates></Point></Placemark></Document></kml>" in
  let pm := Scenario.found (querySelector "Placemark" doc) in
  ancestors pm = ["Document"; "kml"]
  /\ textContent <$> elementQuerySelector "coordinates" pm = Some " 1,2 "
  /\ textContent <$> elementQuerySelector "TimeStamp when" pm = Some "t"
  /\ elementQuerySelector "Point when" pm = None
  /\ querySelector "Placemark" (RefHost.xmlParse "<a><b></a></b>") = None.
Proof. vm_compute. by repeat split. Qed.

Example isoDate_examples :
  RefHost.isoDate "1970-01-01T00:00:00Z" = TimeValue 0
  /\ RefHost.isoDate "2024-02-29T12:00:01Z" = TimeValue 1709208001000
  /\ RefHost.isoDate "2023-02-29T12:00:01Z" = InvalidDate
  /\ RefHost.isoDate "yesterday" = InvalidDate.
Proof. vm_compute. by repeat split. Qed.

(** ** Elements that are not there *)

(** Induction on a node with the hypothesis for every child. *)
Lemma Node_nested_ind (P : Node -> Prop) :
  (forall tag cs, Forall P cs -> P (Element tag cs)) ->
  (forall d, P (Text d)) ->
  forall n, P n.
Proof.
  intros He Ht. fix ind 1. intros [tag cs|d]; [|apply Ht].
  apply He. induction cs as [|c cs IHcs]; constructor; [apply ind | exact IHcs].
Qed.

Lemma findIn_absent (t : string) (n : Node) (rest anc : list string) :
  occurs t n = false -> findIn (t :: rest) anc n = None.
Proof.
  revert anc. induction n as [tag cs IH|d] using Node_nested_ind;
    intros anc H; [|reflexivity].
  simpl in H. apply orb_false_iff in H as [Htag Hcs].
  simpl. unfold matches. rewrite String.eqb_sym, Htag. simpl.
  induction IH as [|c cs Hc _ IHcs]; [reflexivity|].
  simpl in Hcs. apply orb_false_iff in Hcs as [H1 H2].
  rewrite (Hc _ H1). by apply IHcs.
Qed.

Lemma findFirst_absent (t : string) (ns : list Node) (rest anc : list string) :
  existsb (occurs t) ns = false -> findFirst (t :: rest) anc ns = None.
Proof.
  induction ns as [|n ns IH]; simpl; [reflexivity|].
  intros H. apply orb_false_iff in H as [H1 H2].
  rewrite (findIn_absent _ _ _ _ H1). by apply IH.
Qed.

(** A placemark with no [coordinates] element below it, or no [when]
    element below it, answers the tick's queries with null. *)
Lemma lacks_coordinates (e : ElementRef) :
  lacks "coordinates" e = true -> elementQuerySelector "coordinates" e = None.
Proof.
  unfold lacks, elementQuerySelector. destruct (node e) as [tag cs|d]; [|reflexivity].
  intros H. apply negb_true_iff in H.
  change (parseSelector "coordinates") with ["coordinates"].
  by apply findFirst_absent.
Qed.

Lemma lacks_when (e : ElementRef) :
  lacks "when" e = true -> elementQuerySelector "TimeStamp when" e = None.
Proof.
  unfold lacks, elementQuerySelector. destruct (node e) as [tag cs|d]; [|reflexivity].
  intros H. apply negb_true_iff in H.
  change (parseSelector "TimeStamp when") with ["when"; "TimeStamp"].
  by apply findFirst_absent.
Qed.

(** ** Statements in sequence *)

Lemma bind_returned {A B : Type} (m : M A) (k : A -> M B) (st st' : State) (a : A) :
  m st = (inr a, st') -> bind m k st = k a st'.
Proof. unfold bind. by intros ->. Qed.

Lemma bind_thrown {A B : Type} (m : M A) (k : A -> M B) (st st' : State) (e : Thrown) :
  m st = (inl e, st') -> bind m k st = (inl e, st').
Proof. unfold bind. by intros ->. Qed.

(** ** What the map update does *)

Lemma moveFirstMarker_eq (host : Host) (c : LngLat) (st : State) :
  moveFirstMarker host c st
  = match markers st with
    | [] => (inr tt, st)
    | first :: rest =>
        (inl (ErrorObject (notAFunction host "markers[0].update")),
         withMarkers ({| _lngLat := c; drawnAt := drawnAt first |} :: rest) st)
    end.
Proof. cbv [moveFirstMarker bind read act ret throw]. by destruct (markers st). Qed.

Lemma updateMap_None (host : Host) (c : LngLat) (st : State) :
  updateMap host None c st = (inr tt, st).
Proof. reflexivity. Qed.

(** With a marker element in the document the update ends at the call
    of [update]: the map is re-centred, the property is written on the
    element, and the TypeError leaves the block. *)
Lemma updateMap_marker (host : Host) (h : nat) (c : LngLat) (st : State)
    (first : MarkerElement) (rest : list MarkerElement) :
  markers st = first :: rest ->
  updateMap host (Some h) c st
  = (inl (ErrorObject (notAFunction host "markers[0].update")),
     withMarkers ({| _lngLat := c; drawnAt := drawnAt first |} :: rest)
       (logMapCall (SetCenter h c)
          (withInstances (alter (withCenter c) h (instances st)) st))).
Proof.
  intros Hm. unfold updateMap.
  rewrite (bind_returned (setCenter h c) _ st _ tt eq_refl); cbv beta.
  apply bind_thrown. rewrite moveFirstMarker_eq. simpl. by rewrite Hm.
Qed.

(** Without one it goes on to the tracking history and returns. *)
Lemma updateMap_no_marker (host : Host) (h : nat) (c : LngLat) (st : State) :
  markers st = [] ->
  updateMap host (Some h) c st
  = (inr tt,
     let s1 := logMapCall (SetCenter h c)
                 (withInstances (alter (withCenter c) h (instances st)) st) in
     let s2 := logMapCall (GetSource h "tracking-history") s1 in
     match sourceData h "tracking-history" s1 with
     | Some old =>
         logMapCall (SetData h "tracking-history" (old ++ [c]))
           (withInstances
              (alter (fun m => withSources
                                 (<["tracking-history" := (old ++ [c])%list]> (sources m)) m)
                     h (instances s2))
              (logMapCall (GetData h "tracking-history") s2))
     | None => s2
     end).
Proof.
  intros Hm. unfold updateMap.
  rewrite (bind_returned (setCenter h c) _ st _ tt eq_refl); cbv beta.
  match goal with |- context [bind (moveFirstMarker host c) _ ?s] =>
    assert (E : moveFirstMarker host c s = (inr tt, s))
      by (rewrite moveFirstMarker_eq; simpl; by rewrite Hm);
    rewrite (bind_returned _ _ _ _ tt E); cbv beta; set (s1 := s) end.
  rewrite (bind_returned (getSource h "tracking-history") _ s1 _ _ eq_refl); cbv beta.
  cbv zeta.
  assert (Hs : sourceData h "tracking-history"
                 (logMapCall (GetSource h "tracking-history") s1)
               = sourceData h "tracking-history" s1) by reflexivity.
  destruct (sourceData h "tracking-history" s1) as [old|] eqn:E1; [|reflexivity].
  rewrite (bind_returned (getData (h, "tracking-history")) _ _ _ _ eq_refl).
  cbv [setData act]. simpl. rewrite Hs. reflexivity.
Qed.

(** Whether the map update returns or throws. *)
Lemma updateMap_result (host : Host) (m : option nat) (c : LngLat) (st : State) :
  (updateMap host m c st).1
  = match m, markers st with
    | Some _, _ :: _ => inl (ErrorObject (notAFunction host "markers[0].update"))
    | _, _ => inr tt
    end.
Proof.
  destruct m as [h|]; [|reflexivity].
  destruct (markers st) as [|first rest] eqn:Hm.
  - by rewrite (updateMap_no_marker _ _ _ _ Hm).
  - by rewrite (updateMap_marker _ _ _ _ _ _ Hm).
Qed.

Ltac updateMap_cases host m c st :=
  let h := fresh "h" in
  let Hm := fresh "Hm" in
  let first := fresh "first" in
  let rest := fresh "rest" in
  destruct m as [h|];
    [destruct (markers st) as [|first rest] eqn:Hm;
       [rewrite (updateMap_no_marker host h c st Hm)
       |rewrite (updateMap_marker host h c st first rest Hm)]
    |rewrite (updateMap_None host c st)].

Ltac updateMap_Some_cases host h c st :=
  let Hm := fresh "Hm" in
  let first := fresh "first" in
  let rest := fresh "rest" in
  destruct (markers st) as [|first rest] eqn:Hm;
    [rewrite (updateMap_no_marker host h c st Hm)
    |rewrite (updateMap_marker host h c st first rest Hm)].

(** The map update leaves the React state, the network log and the
    console alone, however it ends. *)
Lemma updateMap_frame (host : Host) (m : option nat) (c : LngLat) (st : State) :
  let st' := (updateMap host m c st).2 in
  currentLocation st' = currentLocation st /\ error st' = error st
  /\ requests st' = requests st /\ map st' = map st
  /\ isTracking st' = isTracking st /\ plannedRoute st' = plannedRoute st
  /\ console st' = console st.
Proof.
  cbv zeta. updateMap_cases host m c st; cbv zeta; simpl;
    try match goal with |- context [sourceData ?a ?b ?s] => destruct (sourceData a b s) end;
    by repeat split.
Qed.

Lemma sourceData_instances (h : nat) (id : string) (s s' : State) :
  instances s = instances s' -> sourceData h id s = sourceData h id s'.
Proof. unfold sourceData. by intros ->. Qed.

Lemma sourceData_withCenter (h h' : nat) (id : string) (c : LngLat) (st st0 : State) :
  instances st0 = alter (withCenter c) h (instances st) ->
  sourceData h' id st0 = sourceData h' id st.
Proof.
  intros E. unfold sourceData. rewrite E, lookup_alter.
  case_decide; subst; destruct (instances st !! h'); reflexivity.
Qed.

Lemma sourceData_setData (h h' : nat) (id id' : string) (new : list LngLat)
    (st st0 : State) :
  is_Some (sourceData h id st) ->
  instances st0
  = alter (fun mi => withSources (<[id := new]> (sources mi)) mi) h (instances st) ->
  sourceData h' id' st0
  = if decide (h = h' /\ id' = id) then Some new else sourceData h' id' st.
Proof.
  intros [old Hold] E. unfold sourceData in *. rewrite E, lookup_alter.
  destruct (decide (h = h')) as [->|Hne]; simpl.
  - destruct (instances st !! h') as [mi|]; simpl in *; [|done].
    destruct (decide (id' = id)) as [->|Hid].
    + rewrite decide_True by done. by rewrite lookup_insert_eq.
    + rewrite decide_False by (intros [? ?]; congruence). by rewrite lookup_insert_ne.
  - rewrite decide_False by (intros [? ?]; congruence). reflexivity.
Qed.

(** Only the source ["tracking-history"] of the map the tick holds is
    ever written, by appending the new point, and only when no marker
    element stops the update before. *)
Lemma updateMap_sourceData (host : Host) (m : option nat) (c : LngLat) (st : State)
    (h : nat) (id : string) :
  sourceData h id (updateMap host m c st).2
  = if decide (m = Some h /\ id = "tracking-history" /\ markers st = [])
    then (fun old => old ++ [c])%list <$> sourceData h id st
    else sourceData h id st.
Proof.
  updateMap_cases host m c st; cbv zeta.
  - cbn [snd]. set (s1 := logMapCall _ _).
    assert (Hc : forall h' id', sourceData h' id' s1 = sourceData h' id' st)
      by (intros h' id'; by apply (sourceData_withCenter h0 h' id' c)).
    destruct (sourceData h0 "tracking-history" s1) as [old|] eqn:E.
    + erewrite (sourceData_setData h0 h "tracking-history" id _ s1);
        [| by rewrite E | reflexivity].
      case_decide as D; [destruct D as [-> ->]|].
      * rewrite decide_True by done. by rewrite <- Hc, E.
      * rewrite decide_False by (intros ([= ->] & -> & _); by apply D). apply Hc.
    + rewrite (sourceData_instances _ _ (logMapCall _ s1) s1 eq_refl), Hc.
      case_decide as D; [|done].
      destruct D as ([= ->] & -> & _). by rewrite <- Hc, E.
  - cbn [snd]. rewrite decide_False by (by intros (_ & _ & ?)).
    by apply (sourceData_withCenter h0 h id c).
  - cbn [snd]. by rewrite decide_False by (by intros (? & _)).
Qed.

Lemma lookup_alter_view {A : Type} (view : MapInstance -> A)
    (f : MapInstance -> MapInstance) (h h' : nat) (i : gmap nat MapInstance) :
  (forall m, view (f m) = view m) ->
  view <$> alter f h i !! h' = view <$> i !! h'.
Proof.
  intros Hf. rewrite lookup_alter. case_decide; [subst|reflexivity].
  destruct (i !! h'); simpl; [by rewrite Hf|reflexivity].
Qed.

(** The map update adds or removes no layer. *)
Lemma updateMap_layers (host : Host) (m : option nat) (c : LngLat) (st : State)
    (h : nat) :
  layers <$> instances (updateMap host m c st).2 !! h = layers <$> instances st !! h.
Proof.
  updateMap_cases host m c st; cbv zeta; simpl; [| |reflexivity].
  - match goal with |- context [sourceData ?a ?b ?s] => destruct (sourceData a b s) end;
      simpl; rewrite !lookup_alter; repeat case_decide; subst;
      by destruct (instances st !! h).
  - rewrite lookup_alter. case_decide; subst; by destruct (instances st !! h).
Qed.

(** It re-centres the map it is given, and only that one. *)
Lemma updateMap_center (host : Host) (h : nat) (c : LngLat) (st : State) :
  center <$> instances (updateMap host (Some h) c st).2 !! h
  = (fun _ => c) <$> instances st !! h.
Proof.
  updateMap_Some_cases host h c st; cbv zeta; simpl.
  - match goal with |- context [sourceData ?a ?b ?s] => destruct (sourceData a b s) end;
      simpl; rewrite ?lookup_alter_eq; by destruct (instances st !! h).
  - rewrite lookup_alter_eq. by destruct (instances st !! h).
Qed.

Lemma updateMap_others (host : Host) (h h' : nat) (c : LngLat) (st : State) :
  h' <> h -> instances (updateMap host (Some h) c st).2 !! h' = instances st !! h'.
Proof.
  intros Hne. updateMap_Some_cases host h c st; cbv zeta; simpl.
  - match goal with |- context [sourceData ?a ?b ?s] => destruct (sourceData a b s) end;
      simpl; by rewrite ?lookup_alter_ne by done.
  - by rewrite lookup_alter_ne.
Qed.

(** On the marker elements it writes the property of the first one and
    draws nothing. *)
Lemma updateMap_markers (host : Host) (m : option nat) (c : LngLat) (st : State) :
  markers (updateMap host m c st).2
  = match m, markers st with
    | Some _, first :: rest => {| _lngLat := c; drawnAt := drawnAt first |} :: rest
    | _, _ => markers st
    end.
Proof.
  updateMap_cases host m c st; cbv zeta; simpl; [|reflexivity|reflexivity].
  match goal with |- context [sourceData ?a ?b ?s] => destruct (sourceData a b s) end;
    simpl; by rewrite Hm.
Qed.

(** The library calls it makes, in order. *)
Lemma updateMap_calls (host : Host) (m : option nat) (c : LngLat) (st : State) :
  mapCalls (updateMap host m c st).2
  = (mapCalls st
     ++ match m with
        | None => []
        | Some h =>
            SetCenter h c
            :: match markers st with
               | _ :: _ => []
               | [] =>
                   GetSource h "tracking-history"
                   :: match sourceData h "tracking-history" st with
                      | Some old => [GetData h "tracking-history";
                                     SetData h "tracking-history" (old ++ [c])]
                      | None => []
                      end
               end
        end)%list.
Proof.
  updateMap_cases host m c st; cbv zeta; simpl; [| reflexivity | by rewrite app_nil_r].
  set (s1 := logMapCall _ _).
  assert (Hc : sourceData h "tracking-history" s1 = sourceData h "tracking-history" st)
    by by apply (sourceData_withCenter h h _ c).
  rewrite Hc. destruct (sourceData h "tracking-history" st); simpl;
    rewrite <- ?app_assoc; reflexivity.
Qed.

(** ** The shape of a tick *)

Lemma fetchGarminLocation_unconfigured (env : Environment) (host : Host)
    (net : Net) (st : State) :
  truthy (garmin env !! "mapshareId") = false ->
  fetchGarminLocation env host net st
  = setError (Some "MapShare ID not configured in environment") st.
Proof. intros H. unfold fetchGarminLocation. by rewrite H. Qed.

(** A configured tick logs its request, then either ends in the
    [catch] clause with nothing else done, or commits the location,
    clears the error and updates the map, from where it can still end
    in the [catch] clause. *)
Lemma fetchGarminLocation_configured (env : Environment) (host : Host)
    (net : Net) (st : State) :
  truthy (garmin env !! "mapshareId") = true ->
  fetchGarminLocation env host net st
  = match feedResult host (net (feedUrl env)) with
    | inl e => catchClause e (logRequest (feedUrl env) st)
    | inr (lng, lat, ts) =>
        match updateMap host (map st) (lng, lat)
                (committed env {| lat := lat; lng := lng; timestamp := Some ts |} st) with
        | (inr _, st') => st'
        | (inl e, st') => catchClause e st'
        end
    end.
Proof.
  intros H. unfold fetchGarminLocation. rewrite H. simpl.
  unfold tryBlock, bind, fetch, feedResult, awaitText, throw, act, committed.
  destruct (net (feedUrl env)) as [e|[|] [e|text]]; simpl; try reflexivity.
  destruct (parseKml host text) as [e|[[lng lat] ts]]; simpl; reflexivity.
Qed.

Lemma tick_outcome (env : Environment) (host : Host) (net : Net) (st : State) :
  TickOutcome env host net st (fetchGarminLocation env host net st).
Proof.
  destruct (truthy (garmin env !! "mapshareId")) eqn:Hc.
  - rewrite (fetchGarminLocation_configured _ _ _ _ Hc).
    destruct (feedResult host (net (feedUrl env))) as [e|[[lng lat] ts]] eqn:Hf.
    + by apply TickCaught.
    + destruct (updateMap _ _ _ _) as [[e|[]] st'] eqn:Hu.
      * by eapply TickThrown.
      * by eapply TickCommitted.
  - rewrite (fetchGarminLocation_unconfigured _ _ _ _ Hc). by apply TickUnconfigured.
Qed.

(** A tick whose feed was read: what it leaves is the state of the map
    update, through the [catch] clause when [update] was called. *)
Lemma parsed_tick (env : Environment) (host : Host) (net : Net) (st : State)
    (lng lat : number) (ts : Date) :
  truthy (garmin env !! "mapshareId") = true ->
  feedResult host (net (feedUrl env)) = inr (lng, lat, ts) ->
  let after := (updateMap host (map st) (lng, lat)
                  (committed env {| lat := lat; lng := lng; timestamp := Some ts |} st)).2 in
  fetchGarminLocation env host net st
  = if reachesMarkerUpdate st
    then catchClause (ErrorObject (notAFunction host "markers[0].update")) after
    else after.
Proof.
  intros Hc Hf. cbv zeta. rewrite (fetchGarminLocation_configured _ _ _ _ Hc), Hf.
  pose proof (updateMap_result host (map st) (lng, lat)
    (committed env {| lat := lat; lng := lng; timestamp := Some ts |} st)) as Hr.
  change (markers (committed env _ st)) with (markers st) in Hr.
  unfold reachesMarkerUpdate.
  destruct (updateMap _ _ _ _) as [r after]. simpl in Hr. subst r. simpl.
  by destruct (map st), (markers st).
Qed.

Lemma unparsed_tick (env : Environment) (host : Host) (net : Net) (st : State)
    (e : Thrown) :
  truthy (garmin env !! "mapshareId") = true ->
  feedResult host (net (feedUrl env)) = inl e ->
  fetchGarminLocation env host net st = catchClause e (logRequest (feedUrl env) st).
Proof. intros Hc Hf. by rewrite (fetchGarminLocation_configured _ _ _ _ Hc), Hf. Qed.

(** What a tick whose feed was read leaves in the location and the
    error slot. *)
Lemma parsed_tick_location (env : Environment) (host : Host) (net : Net) (st : State)
    (lng lat : number) (ts : Date) :
  truthy (garmin env !! "mapshareId") = true ->
  feedResult host (net (feedUrl env)) = inr (lng, lat, ts) ->
  currentLocation (fetchGarminLocation env host net st)
  = {| lat := lat; lng := lng; timestamp := Some ts |}
  /\ error (fetchGarminLocation env host net st)
     = if reachesMarkerUpdate st then Some (markerUpdateMessage host) else None.
Proof.
  intros Hc Hf. rewrite (parsed_tick _ _ _ _ _ _ _ Hc Hf). cbv zeta.
  match goal with |- context [updateMap ?h ?m ?c ?s] =>
    destruct (updateMap_frame h m c s) as (Hl & He & _) end.
  destruct (reachesMarkerUpdate st); simpl; by rewrite ?Hl, ?He.
Qed.

(** Whether a tick fails, in terms of its feed and of the state. *)
Lemma tickFailed_eq (env : Environment) (host : Host) (net : Net) (st : State) :
  tickFailed env host net st
  = negb (truthy (garmin env !! "mapshareId"))
    || match feedResult host (net (feedUrl env)) with
       | inl _ => true
       | inr _ => reachesMarkerUpdate st
       end.
Proof.
  unfold tickFailed. destruct (truthy (garmin env !! "mapshareId")) eqn:Hc; simpl.
  - destruct (feedResult host (net (feedUrl env))) as [e|[[lng lat] ts]] eqn:Hf.
    + by rewrite (unparsed_tick _ _ _ _ _ Hc Hf).
    + destruct (parsed_tick_location _ _ _ st _ _ _ Hc Hf) as [_ ->].
      by destruct (reachesMarkerUpdate st).
  - by rewrite (fetchGarminLocation_unconfigured _ _ _ _ Hc).
Qed.

(** No tick changes the map handle, the tracking flag or the planned
    route. *)
Lemma tick_keeps_handle (env : Environment) (host : Host) (net : Net) (st : State) :
  map (fetchGarminLocation env host net st) = map st
  /\ isTracking (fetchGarminLocation env host net st) = isTracking st
  /\ plannedRoute (fetchGarminLocation env host net st) = plannedRoute st.
Proof.
  destruct (tick_outcome env host net st) as [Hc|e Hc Hf|x y ts st' Hc Hf Hu|x y ts e st' Hc Hf Hu];
    try (by repeat split);
    match type of Hu with updateMap ?h ?m ?c ?s = _ =>
      destruct (updateMap_frame h m c s) as (_ & _ & _ & Hm & Ht & Hp & _);
      rewrite Hu in Hm, Ht, Hp end; by repeat split.
Qed.

(** No tick adds or removes a layer of any map. *)
Lemma tick_layers (env : Environment) (host : Host) (net : Net) (st : State)
    (h : nat) :
  layers <$> instances (fetchGarminLocation env host net st) !! h
  = layers <$> instances st !! h.
Proof.
  destruct (tick_outcome env host net st) as [Hc|e Hc Hf|x y ts st' Hc Hf Hu|x y ts e st' Hc Hf Hu];
    try reflexivity;
    match type of Hu with updateMap ?h0 ?m ?c ?s =>  idtac | _ = _ => idtac end;
    match type of Hu with updateMap ?h0 ?m ?c ?s = _ =>
      pose proof (updateMap_layers h0 m c s h) as Hl; rewrite Hu in Hl end; exact Hl.
Qed.

(** No tick adds or removes a marker element. *)
Lemma tick_markers_length (env : Environment) (host : Host) (net : Net) (st : State) :
  length (markers (fetchGarminLocation env host net st)) = length (markers st).
Proof.
  destruct (tick_outcome env host net st) as [Hc|e Hc Hf|x y ts st' Hc Hf Hu|x y ts e st' Hc Hf Hu];
    try reflexivity;
    match type of Hu with updateMap ?h0 ?m ?c ?s = _ =>
      pose proof (updateMap_markers h0 m c s) as Hk; rewrite Hu in Hk end;
    simpl in *; rewrite Hk; by destruct (map st), (markers st).
Qed.

(** How one tick changes the line sources of any map [h]. *)
Lemma tick_sourceData (env : Environment) (host : Host) (net : Net) (st : State)
    (h : nat) (id : string) :
  let st' := fetchGarminLocation env host net st in
  if tickFailed env host net st then sourceData h id st' = sourceData h id st
  else if decide (map st = Some h /\ id = "tracking-history")
       then sourceData h id st'
            = (fun old => old ++ [(lng (currentLocation st'), lat (currentLocation st'))])%list
                <$> sourceData h id st
       else sourceData h id st' = sourceData h id st.
Proof.
  cbv zeta. rewrite tickFailed_eq.
  destruct (truthy (garmin env !! "mapshareId")) eqn:Hc; simpl;
    [|by rewrite (fetchGarminLocation_unconfigured _ _ _ _ Hc)].
  destruct (feedResult host (net (feedUrl env))) as [e|[[x y] ts]] eqn:Hf;
    [by rewrite (unparsed_tick _ _ _ _ _ Hc Hf)|].
  destruct (parsed_tick_location _ _ _ st _ _ _ Hc Hf) as [Hl _].
  rewrite Hl. simpl. clear Hl.
  rewrite (parsed_tick _ _ _ _ _ _ _ Hc Hf). cbv zeta.
  match goal with |- context [updateMap ?h0 ?m ?c ?s] =>
    pose proof (updateMap_sourceData h0 m c s h id) as Hs end.
  change (markers (committed env _ st)) with (markers st) in Hs.
  change (sourceData h id (committed env _ st)) with (sourceData h id st) in Hs.
  unfold reachesMarkerUpdate in *.
  destruct (map st) as [h0|] eqn:Hm, (markers st) as [|first rest] eqn:Hk;
    cbv iota beta; [| change (sourceData h id (catchClause ?e ?s)) with (sourceData h id s) | |];
    rewrite Hs.
  - case_decide as D.
    + destruct D as ([= ->] & -> & _). by rewrite decide_True.
    + rewrite decide_False; [done|]. intros ([= ->] & ->). by apply D.
  - by rewrite decide_False by (by intros (_ & _ & ?)).
  - rewrite !decide_False; [done | by intros [? _] | by intros [? _]].
  - by rewrite decide_False by (by intros [? _]).
Qed.

Lemma tick_requests (env : Environment) (host : Host) (net : Net) (st : State) :
  requests (fetchGarminLocation env host net st)
  = (requests st
     ++ if truthy (garmin env !! "mapshareId") then [feedUrl env] else [])%list.
Proof.
  destruct (tick_outcome env host net st) as [Hc|e Hc Hf|x y ts st' Hc Hf Hu|x y ts e st' Hc Hf Hu];
    rewrite Hc; try (simpl; by rewrite ?app_nil_r);
    match type of Hu with updateMap ?h0 ?m ?c ?s = _ =>
      destruct (updateMap_frame h0 m c s) as (_ & _ & Hr & _); rewrite Hu in Hr end;
    simpl in *; by rewrite Hr.
Qed.

Lemma failures_le (env : Environment) (host : Host) (nets : list Net) (st : State) :
  (failures env host nets st <= length nets)%nat.
Proof.
  revert st. induction nets as [|net nets IH]; intros st; simpl; [lia|].
  specialize (IH (fetchGarminLocation env host net st)).
  destruct (tickFailed env host net st); lia.
Qed.

Lemma syncLoop_keeps_handle (env : Environment) (host : Host) (nets : list Net)
    (st : State) :
  map (syncLoop env host nets st) = map st.
Proof.
  revert st. induction nets as [|net nets IH]; intros st; simpl; [reflexivity|].
  rewrite IH. apply tick_keeps_handle.
Qed.

(** ** Ticks on a map that is ready *)

(** With a map and a marker element, every tick fails, whatever the
    feed: it stops at the identifier check, in reading the feed, or at
    the call of [update]. *)
Lemma tick_at_marker (env : Environment) (host : Host) (net : Net) (st : State) :
  reachesMarkerUpdate st = true ->
  tickFailed env host net st = true
  /\ reachesMarkerUpdate (fetchGarminLocation env host net st) = true
  /\ forall h id, sourceData h id (fetchGarminLocation env host net st)
                  = sourceData h id st.
Proof.
  intros Hr.
  assert (Hf : tickFailed env host net st = true).
  { rewrite tickFailed_eq, Hr.
    destruct (truthy (garmin env !! "mapshareId")); simpl; [|reflexivity].
    by destruct (feedResult host (net (feedUrl env))). }
  split; [exact Hf|]. split.
  - unfold reachesMarkerUpdate in *.
    rewrite (proj1 (tick_keeps_handle env host net st)).
    pose proof (tick_markers_length env host net st) as Hl.
    destruct (map st); [|discriminate Hr].
    destruct (markers st); [discriminate Hr|].
    by destruct (markers (fetchGarminLocation env host net st)).
  - intros h id. pose proof (tick_sourceData env host net st h id) as Hs.
    cbv zeta in Hs. by rewrite Hf in Hs.
Qed.

Example goodBody_text :
  Scenario.goodBody
  = "<Placemark><coordinates>-74.5,40.1,0</coordinates><TimeStamp><when>2024-01-01T00:00:00Z</when></TimeStamp></Placemark>".
Proof. reflexivity. Qed.

Example ready_state :
  map Scenario.ready = Some 0%nat
  /\ markers Scenario.ready = [{| _lngLat := (Fin 0, Fin 0); drawnAt := (Fin 0, Fin 0) |}]
  /\ sourceData 0 "tracking-history" Scenario.ready = Some []
  /\ sourceData 0 "route" Scenario.ready = Some []
  /\ map Scenario.beforeReady = None
  /\ sourceData 0 "tracking-history" Scenario.beforeReady = None.
Proof. vm_compute. by repeat split. Qed.

Example notAFunction_message :
  markerUpdateMessage RefHost.host
  = "Failed to fetch location: markers[0].update is not a function".
Proof. reflexivity. Qed.

(** C1.  What the code does where the specification expects the
    history to grow.  Once the component holds a map and its marker
    element, a tick whose feed is read stores the location, re-centres
    the map and writes the marker's coordinates, and then reports the
    [TypeError] of [markers[0].update()]: it is a failed tick and the
    code that appends to the tracking history is not reached.  Over
    any run from such a state every tick fails and no source of any
    map changes, so the history never grows. *)
Theorem ready_map_never_appends (env : Environment) (host : Host) (nets : list Net)
    (st : State) :
  reachesMarkerUpdate st = true ->
  (forall h id, sourceData h id (syncLoop env host nets st) = sourceData h id st)
  /\ failures env host nets st = length nets
  /\ (forall net lng lat ts,
        truthy (garmin env !! "mapshareId") = true ->
        feedResult host (net (feedUrl env)) = inr (lng, lat, ts) ->
        let s1 := fetchGarminLocation env host net st in
        currentLocation s1 = {| lat := lat; lng := lng; timestamp := Some ts |}
        /\ error s1 = Some (markerUpdateMessage host)
        /\ tickFailed env host net st = true
        /\ (_lngLat <$> head (markers s1)) = Some (lng, lat)
        /\ forall h, sourceData h "tracking-history" s1
                     = sourceData h "tracking-history" st).
Proof.
  intros Hr. split; [|split].
  - revert st Hr. induction nets as [|net nets IH]; intros st Hr h id; simpl;
      [reflexivity|].
    destruct (tick_at_marker env host net st Hr) as (_ & Hr' & Hs).
    by rewrite (IH _ Hr'), Hs.
  - revert st Hr. induction nets as [|net nets IH]; intros st Hr; simpl;
      [reflexivity|].
    destruct (tick_at_marker env host net st Hr) as (Hf & Hr' & _).
    by rewrite Hf, (IH _ Hr').
  - intros net x y ts Hc Hf. cbv zeta.
    destruct (tick_at_marker env host net st Hr) as (Hfail & _ & Hs).
    destruct (parsed_tick_location _ _ _ st _ _ _ Hc Hf) as [Hl He].
    rewrite Hr in He.
    split; [exact Hl|]. split; [exact He|]. split; [exact Hfail|].
    split; [|intros h; apply Hs].
    rewrite (parsed_tick _ _ _ _ _ _ _ Hc Hf), Hr. cbv zeta.
    change (markers (catchClause ?e ?s)) with (markers s).
    unfold reachesMarkerUpdate in Hr.
    destruct (map st) as [h0|] eqn:Hm; [|discriminate Hr].
    destruct (markers st) as [|first rest] eqn:Hk; [discriminate Hr|].
    by rewrite (updateMap_marker host h0 (x, y) _ first rest) by exact Hk.
Qed.

(** Two ticks on the example feed of the specification, on a ready map:
    both fail and the history stays empty. *)
Lemma ready_map_never_appends_witness :
  let nets := [Scenario.serving Scenario.goodBody; Scenario.serving Scenario.goodBody] in
  sourceData 0 "tracking-history" (syncLoop Scenario.env RefHost.host nets Scenario.ready)
  = Some []
  /\ failures Scenario.env RefHost.host nets Scenario.ready = 2%nat
  /\ error (fetchGarminLocation Scenario.env RefHost.host
              (Scenario.serving Scenario.goodBody) Scenario.ready)
     = Some "Failed to fetch location: markers[0].update is not a function".
Proof.
  cbv zeta.
  destruct (ready_map_never_appends Scenario.env RefHost.host
              [Scenario.serving Scenario.goodBody; Scenario.serving Scenario.goodBody]
              Scenario.ready eq_refl) as (Hs & Hf & Ht).
  split; [exact (Hs 0%nat "tracking-history")|]. split; [exact Hf|].
  destruct (Ht (Scenario.serving Scenario.goodBody) _ _ _ eq_refl eq_refl)
    as (_ & He & _).
  exact He.
Defined.

(** ** Ticks on a feed with a placemark *)

Section Feed.

Variables (env : Environment) (host : Host) (net : Net) (st : State).
Variables (body : string) (placemark : ElementRef).

Hypothesis configured : truthy (garmin env !! "mapshareId") = true.
Hypothesis responded : net (feedUrl env) = Responded true (inr body).
Hypothesis hasPlacemark :
  querySelector "Placemark" (parseFromString host body) = Some placemark.

Lemma feed_result : feedResult host (net (feedUrl env)) = parseKml host body.
Proof. unfold feedResult. by rewrite responded. Qed.

Lemma feed_tick :
  fetchGarminLocation env host net st
  = match parseKml host body with
    | inl e => catchClause e (logRequest (feedUrl env) st)
    | inr (lng, lat, ts) =>
        match updateMap host (map st) (lng, lat)
                (committed env {| lat := lat; lng := lng; timestamp := Some ts |} st) with
        | (inr _, st') => st'
        | (inl e, st') => catchClause e st'
        end
    end.
Proof.
  rewrite (fetchGarminLocation_configured _ _ _ _ configured).
  by rewrite feed_result.
Qed.

(** C6.  When the placemark has no [coordinates] element, or no [when]
    element under a [TimeStamp], the tick reports the malformed-feed
    error and leaves the location (and the map) as they were. *)
Theorem missing_node_is_malformed_feed :
  elementQuerySelector "coordinates" placemark = None
  \/ elementQuerySelector "TimeStamp when" placemark = None ->
  let st' := fetchGarminLocation env host net st in
  error st' = Some "Failed to fetch location: Invalid KML data structure"
  /\ currentLocation st' = currentLocation st
  /\ instances st' = instances st /\ markers st' = markers st
  /\ mapCalls st' = mapCalls st.
Proof.
  intros H. cbv zeta. rewrite feed_tick. unfold parseKml. rewrite hasPlacemark.
  destruct H as [-> | ->]; [|destruct (elementQuerySelector "coordinates" placemark)];
    by repeat split.
Qed.

Variables (coordinatesElement timestampElement : ElementRef).

Hypothesis hasCoordinates :
  elementQuerySelector "coordinates" placemark = Some coordinatesElement.
Hypothesis hasTimestamp :
  elementQuerySelector "TimeStamp when" placemark = Some timestampElement.

Lemma parseKml_components :
  parseKml host body
  = let parts : list number := JsNumber.Number <$> components coordinatesElement in
    if isNaN (parts !! 1%nat) || isNaN (parts !! 0%nat) then
      inl (ErrorObject "Invalid coordinates in KML")
    else
      match parts !! 0%nat, parts !! 1%nat with
      | Some lng, Some lat =>
          inr (lng, lat, newDate host (textContent timestampElement))
      | _, _ => inl (ErrorObject "Invalid coordinates in KML")
      end.
Proof.
  unfold parseKml. rewrite hasPlacemark, hasCoordinates, hasTimestamp. reflexivity.
Qed.

(** When the first two components are numbers, the tick stores them
    with whatever date the timestamp text gives; the error slot is
    empty afterwards unless the tick came to call [update]. *)
Lemma numeric_components_commit (lon lat : string) :
  components coordinatesElement !! 0%nat = Some lon -> components coordinatesElement !! 1%nat = Some lat ->
  isNaN (Some (JsNumber.Number lon)) = false ->
  isNaN (Some (JsNumber.Number lat)) = false ->
  let st' := fetchGarminLocation env host net st in
  currentLocation st'
  = {| lat := JsNumber.Number lat; lng := JsNumber.Number lon;
       timestamp := Some (newDate host (textContent timestampElement)) |}
  /\ error st' = if reachesMarkerUpdate st then Some (markerUpdateMessage host) else None.
Proof.
  intros H0 H1 N0 N1. cbv zeta.
  apply parsed_tick_location; [exact configured|].
  rewrite feed_result, parseKml_components. cbv zeta.
  rewrite !list_lookup_fmap, H0, H1. simpl fmap. by rewrite N0, N1.
Qed.

(** C3.  For a coordinates text [lon,lat] or [lon,lat,alt] whose first
    two components are numbers, the tick sets the longitude to the
    first component, the latitude to the second, and the timestamp to
    the date read from the [when] text.  It ends without an error
    unless the component holds a map with a marker element, where the
    call of [update] leaves its message after the location is
    stored. *)
Theorem location_from_feed (lon lat : string) (alt : option string) :
  JsString.trim (textContent coordinatesElement)
  = lon ++ "," ++ lat ++ altitudeSuffix alt ->
  JsString.contains "," lon = false ->
  JsString.contains "," lat = false ->
  isNaN (Some (JsNumber.Number lon)) = false ->
  isNaN (Some (JsNumber.Number lat)) = false ->
  let st' := fetchGarminLocation env host net st in
  currentLocation st'
  = {| lat := JsNumber.Number lat; lng := JsNumber.Number lon;
       timestamp := Some (newDate host (textContent timestampElement)) |}
  /\ error st' = if reachesMarkerUpdate st then Some (markerUpdateMessage host) else None.
Proof.
  intros Ht Clon Clat N0 N1.
  assert (Hc : exists rest, components coordinatesElement = lon :: lat :: rest).
  { unfold components. rewrite Ht.
    pose proof (split_app_sep "," lon (lat ++ altitudeSuffix alt) Clon) as E.
    change (JsString.split "," (lon ++ "," ++ lat ++ altitudeSuffix alt)
            = lon :: JsString.split "," (lat ++ altitudeSuffix alt)) in E.
    rewrite E. destruct alt as [a|].
    - pose proof (split_app_sep "," lat a Clat) as E'.
      change (JsString.split "," (lat ++ altitudeSuffix (Some a))
              = lat :: JsString.split "," a) in E'.
      rewrite E'. eauto.
    - simpl altitudeSuffix. rewrite append_empty_r, (split_no_sep _ _ Clat).
      eauto. }
  destruct Hc as [rest Hc].
  apply numeric_components_commit; try done; by rewrite Hc.
Qed.

(** C5, as amended.  When the longitude or the latitude component is
    not a number, the tick reports the invalid-coordinates error and
    changes neither the location nor the map. *)
Theorem non_numeric_lon_lat_is_invalid (i : nat) (c : string) :
  (i < 2)%nat ->
  components coordinatesElement !! i = Some c ->
  JsNumber.Number c = NaN ->
  let st' := fetchGarminLocation env host net st in
  error st' = Some "Failed to fetch location: Invalid coordinates in KML"
  /\ currentLocation st' = currentLocation st
  /\ instances st' = instances st /\ markers st' = markers st
  /\ mapCalls st' = mapCalls st.
Proof.
  intros Hi Hc Hn. cbv zeta. rewrite feed_tick, parseKml_components. cbv zeta.
  rewrite !list_lookup_fmap.
  assert (Hb : isNaN (JsNumber.Number <$> components coordinatesElement !! 1%nat)
               || isNaN (JsNumber.Number <$> components coordinatesElement !! 0%nat) = true).
  { destruct i as [|[|i]]; [| |lia]; rewrite Hc; simpl; rewrite Hn; simpl;
      [apply orb_true_r | reflexivity]. }
  rewrite Hb. by repeat split.
Qed.

(** C10.  The date read from the [when] text is not checked: when it
    is the invalid date and the coordinates are numbers, the tick
    stores the invalid date in the location.  While the component holds
    no map, or no marker element, the tick succeeds and leaves the
    error slot empty whatever it held; once it holds both, the tick
    fails after storing that location, with the message of the
    [TypeError] thrown by [markers[0].update()]. *)
Theorem invalid_date_is_committed (lon lat : string) :
  components coordinatesElement !! 0%nat = Some lon -> components coordinatesElement !! 1%nat = Some lat ->
  isNaN (Some (JsNumber.Number lon)) = false ->
  isNaN (Some (JsNumber.Number lat)) = false ->
  newDate host (textContent timestampElement) = InvalidDate ->
  let st' := fetchGarminLocation env host net st in
  currentLocation st'
  = {| lat := JsNumber.Number lat; lng := JsNumber.Number lon;
       timestamp := Some InvalidDate |}
  /\ error st' = (if reachesMarkerUpdate st then Some (markerUpdateMessage host) else None)
  /\ tickFailed env host net st = reachesMarkerUpdate st.
Proof.
  intros H0 H1 N0 N1 Hd. cbv zeta.
  destruct (numeric_components_commit lon lat H0 H1 N0 N1) as [Hl He].
  unfold tickFailed. rewrite He, Hl, Hd.
  by destruct (reachesMarkerUpdate st).
Qed.

End Feed.

(** ** The configuration resolver *)

Lemma readEnv_own (processEnv : gmap string string) (key v : string) :
  processEnv !! key = Some v -> readEnv processEnv key = Some (EnvString v).
Proof. unfold readEnv. by intros ->. Qed.

Lemma readEnv_absent (processEnv : gmap string string) (key : string) :
  processEnv !! key = None -> inherited key = false ->
  readEnv processEnv key = None.
Proof. unfold readEnv. by intros -> ->. Qed.

Lemma readEnv_inherited (processEnv : gmap string string) (key : string) :
  processEnv !! key = None -> inherited key = true ->
  readEnv processEnv key = Some (Inherited key).
Proof. unfold readEnv. by intros -> ->. Qed.

(** C7, as amended.  [getEnv] returns the value of the environment when
    it is present and not empty; when it is absent, and the key is not
    the name of a property every object inherits, it returns the
    default if one was given and otherwise throws the missing-variable
    error, and thrown during the import this error leaves no
    [environment] at all.  When it is absent and the key is such a
    name, the read gives the inherited function, which is returned with
    or without a default. *)
Theorem getEnv_contract (processEnv : gmap string string) (key : string) :
  (forall v d, processEnv !! key = Some v -> v <> EmptyString ->
     getEnv processEnv key d = inr (EnvString v))
  /\ (processEnv !! key = None -> inherited key = false ->
      getEnv processEnv key None
      = inl (ErrorObject ("Environment variable " ++ key ++ " is not set")))
  /\ (forall d, processEnv !! key = None -> inherited key = false ->
      getEnv processEnv key (Some d) = inr (EnvString d))
  /\ (processEnv !! "MAPBOX_TOKEN" = None ->
      environment processEnv
      = inl (ErrorObject "Environment variable MAPBOX_TOKEN is not set"))
  /\ (forall d, processEnv !! key = None -> inherited key = true ->
      getEnv processEnv key d = inr (Inherited key)).
Proof.
  split; [|split; [|split; [|split]]].
  - intros v d Hv Hne. unfold getEnv. rewrite (readEnv_own _ _ _ Hv).
    destruct v as [|c v]; [done|]. reflexivity.
  - intros Hn Hk. unfold getEnv. rewrite (readEnv_absent _ _ Hn Hk). reflexivity.
  - intros d Hn Hk. unfold getEnv. rewrite (readEnv_absent _ _ Hn Hk). by destruct d.
  - intros Hn. unfold environment, getEnv, readEnv. rewrite Hn. reflexivity.
  - intros d Hn Hk. unfold getEnv. rewrite (readEnv_inherited _ _ Hn Hk).
    by destruct d as [[|c dv]|].
Qed.

Lemma getEnv_contract_witness :
  getEnv {[ "GARMIN_MAPSHARE_URL" := "https://example.org/feed" ]}
    "GARMIN_MAPSHARE_URL" (Some "https://share.garmin.com/feed/share")
  = inr (EnvString "https://example.org/feed")
  /\ getEnv ∅ "MAPBOX_TOKEN" None
     = inl (ErrorObject "Environment variable MAPBOX_TOKEN is not set")
  /\ getEnv ∅ "GARMIN_MAPSHARE_URL" (Some "https://share.garmin.com/feed/share")
     = inr (EnvString "https://share.garmin.com/feed/share")
  /\ environment ∅ = inl (ErrorObject "Environment variable MAPBOX_TOKEN is not set").
Proof.
  split; [|split; [|split]].
  - apply (getEnv_contract {[ "GARMIN_MAPSHARE_URL" := "https://example.org/feed" ]}
             "GARMIN_MAPSHARE_URL"); [reflexivity | discriminate].
  - apply (getEnv_contract ∅ "MAPBOX_TOKEN"); reflexivity.
  - apply (getEnv_contract ∅ "GARMIN_MAPSHARE_URL"); reflexivity.
  - apply (getEnv_contract ∅ "MAPBOX_TOKEN"). reflexivity.
Defined.

(** C7 as stated fails: a variable that is present but empty is not
    returned. *)
Lemma getEnv_present_counterexample :
  ~ (forall (processEnv : gmap string string) (key v : string) (d : option string),
       processEnv !! key = Some v -> getEnv processEnv key d = inr (EnvString v)).
Proof.
  intros H.
  specialize (H {[ "GARMIN_MAPSHARE_URL" := "" ]} "GARMIN_MAPSHARE_URL" ""
                (Some "https://share.garmin.com/feed/share") eq_refl).
  vm_compute in H. discriminate H.
Qed.

(** A key that names an inherited property is never absent: with no
    variable of that name, [getEnv] returns the inherited function
    instead of the default or the error. *)
Example getEnv_inherited_name :
  getEnv ∅ "toString" None = inr (Inherited "toString")
  /\ getEnv ∅ "constructor" (Some "fallback") = inr (Inherited "constructor").
Proof. split; reflexivity. Qed.

(** C9, as amended.  A variable set to the empty string is resolved as
    missing: the default when there is one, the missing-variable error
    otherwise; and for every key that is not the name of an inherited
    property, that is exactly as if the variable were deleted. *)
Theorem getEnv_empty_as_absent (processEnv : gmap string string) (key : string)
    (d : option string) :
  processEnv !! key = Some EmptyString ->
  getEnv processEnv key d
  = match d with
    | Some dv => inr (EnvString dv)
    | None => inl (ErrorObject ("Environment variable " ++ key ++ " is not set"))
    end
  /\ (inherited key = false ->
      getEnv processEnv key d = getEnv (delete key processEnv) key d).
Proof.
  intros H. unfold getEnv. rewrite (readEnv_own _ _ _ H). split.
  - by destruct d as [[|c dv]|].
  - intros Hk. by rewrite (readEnv_absent (delete key processEnv) key)
      by (by rewrite ?lookup_delete_eq).
Qed.

Lemma getEnv_empty_as_absent_witness :
  getEnv {[ "MAPBOX_TOKEN" := "" ]} "MAPBOX_TOKEN" None
  = inl (ErrorObject "Environment variable MAPBOX_TOKEN is not set")
  /\ getEnv {[ "GARMIN_MAPSHARE_URL" := "" ]} "GARMIN_MAPSHARE_URL"
       (Some "https://share.garmin.com/feed/share")
     = inr (EnvString "https://share.garmin.com/feed/share").
Proof.
  split.
  - apply (getEnv_empty_as_absent {[ "MAPBOX_TOKEN" := "" ]} "MAPBOX_TOKEN" None).
    reflexivity.
  - apply (getEnv_empty_as_absent {[ "GARMIN_MAPSHARE_URL" := "" ]}
             "GARMIN_MAPSHARE_URL" (Some "https://share.garmin.com/feed/share")).
    reflexivity.
Defined.

(** C9 as stated fails: for the name of an inherited property the
    empty variable gives the default, the absent one the inherited
    function. *)
Lemma getEnv_empty_inherited_counterexample :
  ~ (forall (processEnv : gmap string string) (key : string) (d : option string),
       processEnv !! key = Some EmptyString ->
       getEnv processEnv key d = getEnv (delete key processEnv) key d).
Proof.
  intros H.
  specialize (H {[ "toString" := "" ]} "toString" (Some "fallback") eq_refl).
  vm_compute in H. discriminate H.
Qed.

(** ** Ticks without a feed identifier *)

(** Without a feed identifier a whole run of the loop leaves a state
    that already shows the configuration message as it is. *)
Lemma syncLoop_unconfigured (env : Environment) (host : Host) (nets : list Net)
    (st : State) :
  truthy (garmin env !! "mapshareId") = false ->
  error st = Some "MapShare ID not configured in environment" ->
  syncLoop env host nets st = st /\ failures env host nets st = length nets.
Proof.
  intros H He.
  assert (Hfix : forall net, fetchGarminLocation env host net st = st).
  { intros net. rewrite (fetchGarminLocation_unconfigured _ _ _ _ H).
    destruct st; simpl in *. by rewrite He. }
  induction nets as [|net nets [IH1 IH2]]; simpl; [by split|].
  unfold tickFailed. rewrite Hfix, He, IH1, IH2. by split.
Qed.

(** C4.  When the feed identifier is unset (or empty), the tick puts
    the message "MapShare ID not configured in environment" in the
    error slot and does nothing else: no request, no change of location
    or map, the tracking flag as it was.  The loop goes on: every later
    tick checks again, fails the same way and changes nothing more. *)
Theorem unconfigured_tick (env : Environment) (host : Host) (net : Net) (st : State) :
  truthy (garmin env !! "mapshareId") = false ->
  let st' := fetchGarminLocation env host net st in
  error st' = Some ("MapShare ID not configured" ++ " in environment")
  /\ requests st' = requests st
  /\ currentLocation st' = currentLocation st
  /\ instances st' = instances st /\ markers st' = markers st
  /\ mapCalls st' = mapCalls st
  /\ isTracking st' = isTracking st
  /\ forall nets,
       syncLoop env host nets st' = st'
       /\ failures env host nets st' = length nets.
Proof.
  intros H. cbv zeta. rewrite !(fetchGarminLocation_unconfigured _ _ _ _ H).
  repeat split; by apply syncLoop_unconfigured.
Qed.

Lemma unconfigured_tick_witness :
  let st' := fetchGarminLocation Scenario.exported RefHost.host
               (Scenario.serving Scenario.goodBody) Scenario.ready in
  error st' = Some "MapShare ID not configured in environment"
  /\ requests st' = requests Scenario.ready.
Proof.
  cbv zeta.
  destruct (unconfigured_tick Scenario.exported
              RefHost.host (Scenario.serving Scenario.goodBody) Scenario.ready eq_refl)
    as (He & Hr & _).
  split; [exact He | exact Hr].
Defined.

(** C2.  Whatever the process environment holds, the object the
    configuration module exports has no [mapshareId], so every tick run
    with it ends in the not-configured branch and issues no request. *)
Theorem exported_environment_has_no_mapshareId (processEnv : gmap string string)
    (e : Environment) :
  environment processEnv = inr e ->
  garmin e !! "mapshareId" = None
  /\ forall host net st,
       fetchGarminLocation e host net st
       = setError (Some "MapShare ID not configured in environment") st
       /\ requests (fetchGarminLocation e host net st) = requests st.
Proof.
  unfold environment, rbind. intros H.
  destruct (getEnv processEnv "MAPBOX_TOKEN" None) as [?|token]; [discriminate|].
  destruct (getEnv processEnv "GARMIN_MAPSHARE_URL" _) as [?|url]; [discriminate|].
  injection H as <-. simpl.
  assert (Hn : ({[ "mapshareBaseUrl" := asString url ]} : gmap string string)
               !! "mapshareId" = None)
    by by apply lookup_singleton_ne.
  split; [exact Hn|]. intros host net st.
  rewrite fetchGarminLocation_unconfigured by (simpl; by rewrite Hn).
  by split.
Qed.

Lemma exported_environment_witness :
  environment Scenario.tokenOnly = inr Scenario.exported
  /\ garmin Scenario.exported !! "mapshareId" = None
  /\ requests (fetchGarminLocation Scenario.exported RefHost.host
                 (Scenario.serving Scenario.goodBody) Scenario.ready)
     = requests Scenario.ready.
Proof.
  split; [reflexivity|].
  destruct (exported_environment_has_no_mapshareId
              Scenario.tokenOnly Scenario.exported eq_refl) as [Hn Ht].
  split; [exact Hn|]. apply Ht.
Defined.

(** ** The feed theorems on concrete feeds *)

(** The example of the specification. *)
Lemma location_from_feed_witness :
  let st' := fetchGarminLocation Scenario.env RefHost.host
               (Scenario.serving Scenario.goodBody) (initialState true) in
  currentLocation st'
  = {| lat := Fin (401 # 10); lng := Fin (-149 # 2);
       timestamp := Some (TimeValue 1704067200000) |}
  /\ error st' = None.
Proof.
  exact (location_from_feed Scenario.env RefHost.host
           (Scenario.serving Scenario.goodBody) (initialState true)
           Scenario.goodBody (Scenario.placemarkOf Scenario.goodBody)
           eq_refl eq_refl eq_refl
           (Scenario.coordinatesOf Scenario.goodBody) (Scenario.whenOf Scenario.goodBody)
           eq_refl eq_refl "-74.5" "40.1" (Some "0")
           eq_refl eq_refl eq_refl eq_refl eq_refl).
Defined.

Lemma missing_node_witness :
  let st' := fetchGarminLocation Scenario.env RefHost.host
               (Scenario.serving Scenario.noTimestampBody) Scenario.ready in
  error st' = Some "Failed to fetch location: Invalid KML data structure"
  /\ currentLocation st' = initialLocation.
Proof.
  destruct (missing_node_is_malformed_feed Scenario.env RefHost.host
              (Scenario.serving Scenario.noTimestampBody) Scenario.ready
              Scenario.noTimestampBody (Scenario.placemarkOf Scenario.noTimestampBody)
              eq_refl eq_refl eq_refl (or_intror eq_refl))
    as (He & Hl & _).
  split; [exact He | exact Hl].
Defined.

(** The feed ["abc,12.3"] of the specification. *)
Lemma non_numeric_lon_lat_witness :
  let body := Scenario.placemark "abc,12.3" "2024-01-01T00:00:00Z" in
  let st' := fetchGarminLocation Scenario.env RefHost.host
               (Scenario.serving body) Scenario.ready in
  error st' = Some "Failed to fetch location: Invalid coordinates in KML"
  /\ currentLocation st' = initialLocation
  /\ sourceData 0 "tracking-history" st' = Some [].
Proof.
  cbv zeta.
  destruct (non_numeric_lon_lat_is_invalid Scenario.env RefHost.host
              (Scenario.serving (Scenario.placemark "abc,12.3" "2024-01-01T00:00:00Z"))
              Scenario.ready
              (Scenario.placemark "abc,12.3" "2024-01-01T00:00:00Z")
              (Scenario.placemarkOf (Scenario.placemark "abc,12.3" "2024-01-01T00:00:00Z"))
              eq_refl eq_refl eq_refl
              (Scenario.coordinatesOf (Scenario.placemark "abc,12.3" "2024-01-01T00:00:00Z"))
              (Scenario.whenOf (Scenario.placemark "abc,12.3" "2024-01-01T00:00:00Z"))
              eq_refl eq_refl 0%nat "abc" ltac:(lia) eq_refl eq_refl)
    as (He & Hl & Hi & _).
  split; [exact He|]. split; [exact Hl|].
  unfold sourceData. rewrite Hi. reflexivity.
Defined.

(** C5 as stated fails: a non-numeric third component is not
    looked at, and the tick succeeds. *)
Lemma non_numeric_component_counterexample :
  ~ (forall (env : Environment) (host : Host) (net : Net) (st : State)
       (body : string) (placemark coordinatesElement : ElementRef) (c : string),
       truthy (garmin env !! "mapshareId") = true ->
       net (feedUrl env) = Responded true (inr body) ->
       querySelector "Placemark" (parseFromString host body) = Some placemark ->
       elementQuerySelector "coordinates" placemark = Some coordinatesElement ->
       c ∈ components coordinatesElement ->
       JsNumber.Number c = NaN ->
       error (fetchGarminLocation env host net st)
       = Some "Failed to fetch location: Invalid coordinates in KML"
       /\ currentLocation (fetchGarminLocation env host net st) = currentLocation st).
Proof.
  intros H.
  pose (body := Scenario.placemark "1,2,abc" "2024-01-01T00:00:00Z").
  destruct (H Scenario.env RefHost.host (Scenario.serving body) Scenario.beforeReady
              body (Scenario.placemarkOf body) (Scenario.coordinatesOf body) "abc"
              eq_refl eq_refl eq_refl eq_refl) as [He _].
  - vm_compute. do 2 apply list_elem_of_further. apply list_elem_of_here.
  - reflexivity.
  - vm_compute in He. discriminate He.
Qed.

(** An unreadable date on a ready map: the invalid date is stored and
    the tick ends with the message of the marker call. *)
Lemma invalid_date_witness :
  let body := Scenario.placemark "-74.5,40.1" "yesterday" in
  let st' := fetchGarminLocation Scenario.env RefHost.host (Scenario.serving body)
               Scenario.ready in
  timestamp (currentLocation st') = Some InvalidDate
  /\ error st' = Some "Failed to fetch location: markers[0].update is not a function".
Proof.
  cbv zeta.
  destruct (invalid_date_is_committed Scenario.env RefHost.host
              (Scenario.serving (Scenario.placemark "-74.5,40.1" "yesterday"))
              Scenario.ready
              (Scenario.placemark "-74.5,40.1" "yesterday")
              (Scenario.placemarkOf (Scenario.placemark "-74.5,40.1" "yesterday"))
              eq_refl eq_refl eq_refl
              (Scenario.coordinatesOf (Scenario.placemark "-74.5,40.1" "yesterday"))
              (Scenario.whenOf (Scenario.placemark "-74.5,40.1" "yesterday"))
              eq_refl eq_refl "-74.5" "40.1" eq_refl eq_refl eq_refl eq_refl eq_refl)
    as (Hl & He & _).
  split; [rewrite Hl; reflexivity | exact He].
Defined.

(** The same feed before the map is ready: the tick succeeds. *)
Example invalid_date_before_ready :
  let body := Scenario.placemark "-74.5,40.1" "yesterday" in
  let st' := fetchGarminLocation Scenario.env RefHost.host (Scenario.serving body)
               (setError (Some "Failed to fetch location: Failed to fetch location data")
                  Scenario.beforeReady) in
  timestamp (currentLocation st') = Some InvalidDate /\ error st' = None.
Proof. vm_compute. by split. Qed.

(** ** Ticks before the map is ready *)

(** C8.  While the map handle is null, a tick calls nothing of the
    mapping library and changes neither a map object nor a marker; and
    a tick that reads a location from its feed there raises no error:
    it only logs its request, stores the location and clears the error
    slot. *)
Theorem unready_map_is_untouched (env : Environment) (host : Host) (net : Net)
    (st : State) :
  map st = None ->
  let st' := fetchGarminLocation env host net st in
  mapCalls st' = mapCalls st /\ instances st' = instances st
  /\ markers st' = markers st
  /\ (forall body lng lat ts,
        truthy (garmin env !! "mapshareId") = true ->
        net (feedUrl env) = Responded true (inr body) ->
        parseKml host body = inr (lng, lat, ts) ->
        error st' = None
        /\ tickFailed env host net st = false
        /\ st' = committed env {| lat := lat; lng := lng; timestamp := Some ts |} st).
Proof.
  intros Hm. cbv zeta. unfold tickFailed.
  destruct (truthy (garmin env !! "mapshareId")) eqn:Hc.
  - rewrite (fetchGarminLocation_configured _ _ _ _ Hc).
    destruct (feedResult host (net (feedUrl env))) as [e|[[x y] t]] eqn:Hf.
    + do 3 (split; [reflexivity|]). intros body lng lat ts _ Hn Hp.
      unfold feedResult in Hf. rewrite Hn in Hf. cbn [rbind] in Hf. rewrite Hp in Hf. discriminate Hf.
    + rewrite Hm, updateMap_None. do 3 (split; [reflexivity|]).
      intros body lng lat ts _ Hn Hp.
      unfold feedResult in Hf. rewrite Hn in Hf. cbn [rbind] in Hf. rewrite Hp in Hf. injection Hf as <- <- <-.
      by repeat split.
  - rewrite (fetchGarminLocation_unconfigured _ _ _ _ Hc).
    do 3 (split; [reflexivity|]). intros body lng lat ts Hc'. discriminate Hc'.
Qed.

Lemma unready_map_witness :
  let st' := fetchGarminLocation Scenario.env RefHost.host
               (Scenario.serving Scenario.goodBody) Scenario.beforeReady in
  mapCalls st' = [NewMap 0] /\ error st' = None
  /\ sourceData 0 "tracking-history" st' = None.
Proof.
  cbv zeta.
  destruct (unready_map_is_untouched Scenario.env RefHost.host
              (Scenario.serving Scenario.goodBody) Scenario.beforeReady eq_refl)
    as (Hc & Hi & _ & Hs).
  destruct (Hs Scenario.goodBody (Fin (-149 # 2)) (Fin (401 # 10))
              (TimeValue 1704067200000) eq_refl eq_refl eq_refl) as (He & _).
  split; [rewrite Hc; reflexivity|]. split; [exact He|].
  unfold sourceData. rewrite Hi. reflexivity.
Defined.

(** * Further properties of the code *)

(** ** The configuration module as a whole *)

Lemma truthy_Some (v : option string) :
  truthy v = true -> exists c s, v = Some (String c s).
Proof. destruct v as [[|c s]|]; try discriminate. eauto. Qed.

(** X1.  The import succeeds exactly when [MAPBOX_TOKEN] is set to a
    non-empty string.  The exported object then holds that token, and
    as base address the value of [GARMIN_MAPSHARE_URL] when that is
    non-empty and the public Garmin address otherwise; the second
    variable can never make the import fail. *)
Theorem environment_characterised (processEnv : gmap string string) :
  (truthy (processEnv !! "MAPBOX_TOKEN") = false ->
   environment processEnv
   = inl (ErrorObject "Environment variable MAPBOX_TOKEN is not set"))
  /\ (truthy (processEnv !! "MAPBOX_TOKEN") = true ->
      exists e,
        environment processEnv = inr e
        /\ mapbox e !! "token" = processEnv !! "MAPBOX_TOKEN"
        /\ garmin e !! "mapshareBaseUrl"
           = (if truthy (processEnv !! "GARMIN_MAPSHARE_URL")
              then processEnv !! "GARMIN_MAPSHARE_URL"
              else Some "https://share.garmin.com/feed/share")
        /\ dom (mapbox e) = {[ "token" ]}
        /\ dom (garmin e) = {[ "mapshareBaseUrl" ]}).
Proof.
  split; intros H; unfold environment, getEnv, readEnv, rbind.
  - destruct (processEnv !! "MAPBOX_TOKEN") as [[|c t]|]; [reflexivity|discriminate H|reflexivity].
  - destruct (truthy_Some _ H) as (c & t & ->). simpl.
    destruct (processEnv !! "GARMIN_MAPSHARE_URL") as [[|c' u]|]; simpl;
      (eexists; split; [reflexivity|]); simpl;
      rewrite !lookup_singleton_eq, !dom_singleton_L; by repeat split.
Qed.

Lemma environment_characterised_witness :
  exists e,
    environment {[ "MAPBOX_TOKEN" := "pk.test" ]} = inr e
    /\ mapbox e !! "token" = Some "pk.test"
    /\ garmin e !! "mapshareBaseUrl" = Some "https://share.garmin.com/feed/share".
Proof.
  destruct (environment_characterised Scenario.tokenOnly) as [_ H].
  destruct (H eq_refl) as (e & He & Ht & Hu & _).
  exists e. split; [exact He|]. split; [exact Ht | exact Hu].
Defined.

(** X2.  [getEnv] never throws when a default is given, and what it
    returns is the empty string only when that default is the empty
    string and the property read gave nothing truthy.  Without a
    default, what it returns is what the property read gave: when the
    key is not the name of an inherited property, the variable itself,
    which is then not empty; when it is such a name and no variable has
    it, the inherited function. *)
Theorem getEnv_result_nonempty (processEnv : gmap string string) (key : string)
    (d : option string) :
  (is_Some d -> exists r, getEnv processEnv key d = inr r)
  /\ (getEnv processEnv key d = inr (EnvString EmptyString) ->
      d = Some EmptyString /\ truthyValue (readEnv processEnv key) = false)
  /\ (forall r, getEnv processEnv key None = inr r ->
      readEnv processEnv key = Some r)
  /\ (forall r, inherited key = false -> getEnv processEnv key None = inr r ->
      exists s, r = EnvString s /\ processEnv !! key = Some s /\ s <> EmptyString)
  /\ (inherited key = true -> processEnv !! key = None ->
      getEnv processEnv key d = inr (Inherited key)).
Proof.
  unfold getEnv, readEnv. split; [|split; [|split; [|split]]].
  - intros [dv ->].
    destruct (processEnv !! key) as [[|c v]|], (inherited key); simpl; eauto.
  - destruct (processEnv !! key) as [[|c v]|], (inherited key), d as [[|c' dv]|];
      simpl; intros [=]; by split.
  - destruct (processEnv !! key) as [[|c v]|], (inherited key); simpl;
      intros r [= <-]; reflexivity.
  - intros r ->. destruct (processEnv !! key) as [[|c v]|]; simpl; intros [= <-].
    exists (String c v). by repeat split.
  - intros -> ->. simpl. by destruct d as [[|c dv]|].
Qed.

Lemma getEnv_result_nonempty_witness :
  (exists r, getEnv ∅ "GARMIN_MAPSHARE_URL" (Some "") = inr r)
  /\ (exists s, EnvString "pk.test" = EnvString s
                /\ Scenario.tokenOnly !! "MAPBOX_TOKEN" = Some s /\ s <> EmptyString)
  /\ getEnv ∅ "toString" (Some "fallback") = inr (Inherited "toString").
Proof.
  destruct (getEnv_result_nonempty ∅ "GARMIN_MAPSHARE_URL" (Some "")) as (H1 & _).
  destruct (getEnv_result_nonempty Scenario.tokenOnly "MAPBOX_TOKEN" None)
    as (_ & _ & _ & H4 & _).
  destruct (getEnv_result_nonempty ∅ "toString" (Some "fallback"))
    as (_ & _ & _ & _ & H5).
  split; [apply H1; by eexists|].
  split; [apply H4; reflexivity | apply H5; reflexivity].
Defined.

(** ** Creating the map *)

Lemma nextHandle_fresh (st : State) : instances st !! nextHandle st = None.
Proof. apply not_elem_of_dom. unfold nextHandle. apply is_fresh. Qed.

(** X3.  The library check comes first and fails silently: without
    the library [initializeMap] writes one console line and shows no
    error, even when the token is missing too.  With the library but
    without a token it shows the token message.  In both cases no map
    object is created, no library call is made and the access token is
    not set; a map object is created exactly when both checks pass. *)
Theorem initializeMap_guards (env : Environment) (st : State) :
  let st' := initializeMap env st in
  (mapboxgl st = false ->
   error st' = error st
   /\ console st' = (console st ++ ["Mapbox GL JS not loaded"])%list
   /\ instances st' = instances st /\ mapCalls st' = mapCalls st
   /\ accessToken st' = accessToken st)
  /\ (mapboxgl st = true -> truthy (mapbox env !! "token") = false ->
      error st' = Some "Mapbox token not configured in environment"
      /\ console st' = console st
      /\ instances st' = instances st /\ mapCalls st' = mapCalls st
      /\ accessToken st' = accessToken st)
  /\ (instances st' <> instances st
      <-> mapboxgl st = true /\ truthy (mapbox env !! "token") = true).
Proof.
  cbv zeta. unfold initializeMap.
  destruct (mapboxgl st); simpl.
  - destruct (truthy (mapbox env !! "token")) eqn:Ht; simpl.
    + split; [discriminate|]. split; [discriminate|]. split; [done|].
      intros _ E. pose proof (nextHandle_fresh st) as Hf.
      rewrite <- E, lookup_insert_eq in Hf. discriminate.
    + split; [discriminate|]. split; [by repeat split|].
      split; [done | by intros [_ ?]].
  - split; [by repeat split|]. split; [discriminate|].
    split; [done | by intros [? _]].
Qed.

Lemma initializeMap_guards_witness :
  error (initializeMap Scenario.env (initialState false)) = None
  /\ console (initializeMap Scenario.env (initialState false))
     = ["Mapbox GL JS not loaded"]
  /\ instances (initializeMap Scenario.env (initialState true)) <> ∅.
Proof.
  destruct (initializeMap_guards Scenario.env (initialState false)) as (H1 & _ & _).
  destruct (H1 eq_refl) as (He & Hc & _).
  destruct (initializeMap_guards Scenario.env (initialState true)) as (_ & _ & H3).
  split; [exact He|]. split; [exact Hc|]. apply H3. by split.
Defined.

(** X4.  When both checks pass, the new map object gets an identity no
    map object had, so every map object there was is still there
    unchanged; the new one is centred on (-74.5, 40) at zoom 9 with no
    source and no layer.  The component's map handle, ready flag,
    location and markers are not changed: the map is not usable by a tick
    before its load event. *)
Theorem initializeMap_creates_fresh_map (env : Environment) (st : State) :
  mapboxgl st = true ->
  truthy (mapbox env !! "token") = true ->
  let st' := initializeMap env st in
  instances st !! nextHandle st = None
  /\ instances st' !! nextHandle st
     = Some {| center := (Fin (-149 # 2), Fin 40); zoom := 9;
               sources := ∅; layers := [] |}
  /\ (forall h m, instances st !! h = Some m -> instances st' !! h = Some m)
  /\ size (instances st') = S (size (instances st))
  /\ accessToken st' = mapbox env !! "token"
  /\ mapCalls st' = (mapCalls st ++ [NewMap (nextHandle st)])%list
  /\ map st' = map st /\ mapLoaded st' = mapLoaded st
  /\ currentLocation st' = currentLocation st /\ markers st' = markers st
  /\ error st' = error st.
Proof.
  intros Hl Ht. cbv zeta. unfold initializeMap. rewrite Hl, Ht. simpl.
  pose proof (nextHandle_fresh st) as Hf.
  split; [exact Hf|]. split; [by rewrite lookup_insert_eq|].
  split.
  { intros h m Hm. rewrite lookup_insert_ne; [exact Hm|]. intros <-. congruence. }
  split; [by rewrite map_size_insert_None|]. by repeat split.
Qed.

Lemma initializeMap_creates_fresh_map_witness :
  instances Scenario.beforeReady !! 0%nat
  = Some {| center := (Fin (-149 # 2), Fin 40); zoom := 9; sources := ∅; layers := [] |}
  /\ map Scenario.beforeReady = None.
Proof.
  destruct (initializeMap_creates_fresh_map Scenario.env (initialState true)
              eq_refl eq_refl) as (_ & Hn & _ & _ & _ & _ & Hm & _).
  split; [exact Hn | exact Hm].
Defined.

(** X5.  Whenever the configuration module has loaded, the token check
    of [initializeMap] cannot fail: with the library present a map is
    created, no error is shown, and the library's access token is the
    value of [MAPBOX_TOKEN]. *)
Theorem loaded_environment_has_token (processEnv : gmap string string)
    (e : Environment) (st : State) :
  environment processEnv = inr e ->
  mapboxgl st = true ->
  let st' := initializeMap e st in
  error st' = error st
  /\ accessToken st' = processEnv !! "MAPBOX_TOKEN"
  /\ truthy (accessToken st') = true
  /\ is_Some (instances st' !! nextHandle st).
Proof.
  intros He Hl. cbv zeta.
  unfold environment, getEnv, readEnv, rbind in He.
  destruct (processEnv !! "MAPBOX_TOKEN") as [[|c t]|]; simpl in He;
    try discriminate He.
  destruct (processEnv !! "GARMIN_MAPSHARE_URL") as [[|c' u]|]; simpl in He;
    injection He as <-;
    unfold initializeMap; rewrite Hl; simpl; rewrite lookup_singleton_eq; simpl;
    rewrite lookup_insert_eq; by repeat split.
Qed.

Lemma loaded_environment_has_token_witness :
  accessToken (initializeMap Scenario.exported (initialState true)) = Some "pk.test".
Proof.
  destruct (loaded_environment_has_token Scenario.tokenOnly Scenario.exported
              (initialState true) eq_refl eq_refl) as (_ & Ha & _).
  exact Ha.
Defined.

(** ** The load event *)

(** X6.  After the load handler of an existing map object has run,
    the component holds that map and is flagged loaded; the map has the
    sources ["route"] and ["tracking-history"], both empty, and the two
    layers added in that order; one marker is added, at (0, 0) whatever
    location the component holds by then; location, error and every
    other map object are as before. *)
Theorem onLoad_makes_ready (h : nat) (m : MapInstance) (st : State) :
  instances st !! h = Some m ->
  let st' := onLoad h st in
  map st' = Some h /\ mapLoaded st' = true
  /\ sourceData h "route" st' = Some []
  /\ sourceData h "tracking-history" st' = Some []
  /\ layers <$> instances st' !! h = Some (layers m ++ ["route"; "tracking-history"])%list
  /\ center <$> instances st' !! h = Some (center m)
  /\ markers st'
     = (markers st ++ [{| _lngLat := (Fin 0, Fin 0); drawnAt := (Fin 0, Fin 0) |}])%list
  /\ currentLocation st' = currentLocation st /\ error st' = error st
  /\ forall h', h' <> h -> instances st' !! h' = instances st !! h'.
Proof.
  intros Hm. cbv zeta. unfold onLoad, addSource, addLayer, sourceData. simpl.
  rewrite !lookup_alter_eq, Hm. simpl.
  rewrite <- !app_assoc. simpl.
  repeat split.
  - rewrite lookup_insert_ne by done. apply lookup_insert_eq.
  - apply lookup_insert_eq.
  - intros h' Hne. by rewrite !lookup_alter_ne.
Qed.

Lemma onLoad_makes_ready_witness :
  map Scenario.ready = Some 0%nat
  /\ sourceData 0 "tracking-history" Scenario.ready = Some []
  /\ markers Scenario.ready
     = [{| _lngLat := (Fin 0, Fin 0); drawnAt := (Fin 0, Fin 0) |}].
Proof.
  destruct (onLoad_makes_ready 0 _ Scenario.beforeReady eq_refl)
    as (Hm & _ & _ & Hs & _ & _ & Hk & _).
  split; [exact Hm|]. split; [exact Hs | exact Hk].
Defined.

(** ** What a tick does, by outcome *)

(** The [catch] clause touches the error slot and the console only. *)
Lemma parsed_tick_fields (env : Environment) (host : Host) (net : Net) (st : State)
    (lng lat : number) (ts : Date) :
  truthy (garmin env !! "mapshareId") = true ->
  feedResult host (net (feedUrl env)) = inr (lng, lat, ts) ->
  let after := (updateMap host (map st) (lng, lat)
                  (committed env {| lat := lat; lng := lng; timestamp := Some ts |} st)).2 in
  let st' := fetchGarminLocation env host net st in
  instances st' = instances after /\ markers st' = markers after
  /\ mapCalls st' = mapCalls after.
Proof.
  intros Hc Hf. cbv zeta. rewrite (parsed_tick _ _ _ _ _ _ _ Hc Hf). cbv zeta.
  by destruct (reachesMarkerUpdate st).
Qed.

(** X7.  A tick that reads a location while the component holds map
    [h] re-centres that map on it and touches no other map object and
    no source but the tracking history.  With a marker element in the
    document it then writes the coordinates on the element and stops at
    the call of [update]: the tick ends with that error, nothing is
    appended, nothing is redrawn and [setCenter] is the only library
    call.  Without a marker element it goes on to append the point to
    the tracking history, calling setCenter, getSource, then getData
    and setData when the source exists, and ends without an error. *)
Theorem parsed_tick_on_map (env : Environment) (host : Host) (net : Net)
    (st : State) (h : nat) (m : MapInstance) (x y : number) (ts : Date) :
  map st = Some h ->
  instances st !! h = Some m ->
  truthy (garmin env !! "mapshareId") = true ->
  feedResult host (net (feedUrl env)) = inr (x, y, ts) ->
  let st' := fetchGarminLocation env host net st in
  let p := (x, y) in
  center <$> instances st' !! h = Some p
  /\ (forall h', h' <> h -> instances st' !! h' = instances st !! h')
  /\ (forall id, id <> "tracking-history" -> sourceData h id st' = sourceData h id st)
  /\ match markers st with
     | first :: rest =>
         error st' = Some (markerUpdateMessage host)
         /\ markers st' = {| _lngLat := p; drawnAt := drawnAt first |} :: rest
         /\ sourceData h "tracking-history" st' = sourceData h "tracking-history" st
         /\ mapCalls st' = (mapCalls st ++ [SetCenter h p])%list
     | [] =>
         error st' = None
         /\ markers st' = []
         /\ sourceData h "tracking-history" st'
            = (fun old => old ++ [p])%list <$> sourceData h "tracking-history" st
         /\ mapCalls st'
            = (mapCalls st ++ [SetCenter h p; GetSource h "tracking-history"]
               ++ match sourceData h "tracking-history" st with
                  | Some old => [GetData h "tracking-history";
                                 SetData h "tracking-history" (old ++ [p])]
                  | None => []
                  end)%list
     end.
Proof.
  intros Hm Hi Hc Hf. cbv zeta.
  destruct (parsed_tick_fields _ _ _ st _ _ _ Hc Hf) as (Ei & Ek & Ec).
  destruct (parsed_tick_location _ _ _ st _ _ _ Hc Hf) as [_ He].
  cbv zeta in Ei, Ek, Ec. rewrite Hm in Ei, Ek, Ec.
  set (s0 := committed env _ st) in *.
  assert (Hsd : forall id,
            sourceData h id (fetchGarminLocation env host net st)
            = if decide (id = "tracking-history" /\ markers st = [])
              then (fun old => old ++ [(x, y)])%list <$> sourceData h id st
              else sourceData h id st).
  { intros id. rewrite (sourceData_instances h id _ _ Ei), updateMap_sourceData.
    change (markers s0) with (markers st).
    change (sourceData h id s0) with (sourceData h id st).
    case_decide as D1; case_decide as D2; try done; exfalso; tauto. }
  split.
  { rewrite Ei, updateMap_center. change (instances s0) with (instances st).
    by rewrite Hi. }
  split; [intros h' Hne; rewrite Ei; by rewrite updateMap_others|].
  split.
  { intros id Hid. rewrite Hsd. by rewrite decide_False by (by intros [? _]). }
  rewrite Hsd, He, Ek, Ec, updateMap_markers, updateMap_calls.
  change (markers s0) with (markers st). change (mapCalls s0) with (mapCalls st).
  change (sourceData h "tracking-history" s0) with (sourceData h "tracking-history" st).
  unfold reachesMarkerUpdate. rewrite Hm.
  destruct (markers st) as [|first rest].
  - rewrite decide_True by done. by repeat split.
  - rewrite decide_False by (by intros [_ ?]). by repeat split.
Qed.

Lemma parsed_tick_on_map_witness :
  let st' := fetchGarminLocation Scenario.env RefHost.host
               (Scenario.serving Scenario.goodBody) Scenario.ready in
  center <$> instances st' !! 0%nat = Some (Fin (-149 # 2), Fin (401 # 10))
  /\ error st' = Some "Failed to fetch location: markers[0].update is not a function"
  /\ markers st'
     = [{| _lngLat := (Fin (-149 # 2), Fin (401 # 10)); drawnAt := (Fin 0, Fin 0) |}]
  /\ sourceData 0 "tracking-history" st' = Some [].
Proof.
  destruct (parsed_tick_on_map Scenario.env RefHost.host
              (Scenario.serving Scenario.goodBody) Scenario.ready 0 _ _ _ _
              eq_refl eq_refl eq_refl eq_refl) as (Hc & _ & _ & He & Hk & Hs & _).
  split; [exact Hc|]. split; [exact He|]. split; [exact Hk | exact Hs].
Defined.

(** Every message a tick leaves is a non-empty string. *)
Lemma tick_error_nonEmpty (env : Environment) (host : Host) (net : Net) (st : State) :
  View.nonEmpty (error (fetchGarminLocation env host net st))
  = error (fetchGarminLocation env host net st).
Proof.
  destruct (truthy (garmin env !! "mapshareId")) eqn:Hc;
    [|by rewrite (fetchGarminLocation_unconfigured _ _ _ _ Hc)].
  destruct (feedResult host (net (feedUrl env))) as [e|[[x y] ts]] eqn:Hf.
  - by rewrite (unparsed_tick _ _ _ _ _ Hc Hf).
  - destruct (parsed_tick_location _ _ _ st _ _ _ Hc Hf) as [_ ->].
    by destruct (reachesMarkerUpdate st).
Qed.

(** X8.  A tick that fails, for any reason, leaves a message that is
    never empty and changes neither the map handle, nor a source of any
    map, nor the tracking flag.  A configured tick has issued its one
    request and written one console line by then; an unconfigured one
    has done neither.  Unless the tick failed at the call of [update],
    it has changed nothing else: location, map objects, markers and the
    log of library calls are as before.  A tick that failed at the
    call of [update] has stored the location it read. *)
Theorem failed_tick_frame (env : Environment) (host : Host)
    (net : Net) (st : State) :
  tickFailed env host net st = true ->
  let st' := fetchGarminLocation env host net st in
  map st' = map st /\ isTracking st' = isTracking st
  /\ (forall h id, sourceData h id st' = sourceData h id st)
  /\ truthy (error st') = true
  /\ requests st'
     = (requests st
        ++ if truthy (garmin env !! "mapshareId") then [feedUrl env] else [])%list
  /\ length (console st')
     = (length (console st)
        + if truthy (garmin env !! "mapshareId") then 1 else 0)%nat
  /\ (feedRead env host net = false ->
      currentLocation st' = currentLocation st
      /\ instances st' = instances st
      /\ markers st' = markers st /\ mapCalls st' = mapCalls st)
  /\ (feedRead env host net = true ->
      reachesMarkerUpdate st = true
      /\ error st' = Some (markerUpdateMessage host)
      /\ exists lng lat ts,
           feedResult host (net (feedUrl env)) = inr (lng, lat, ts)
           /\ currentLocation st' = {| lat := lat; lng := lng; timestamp := Some ts |}).
Proof.
  intros Hfail. cbv zeta.
  destruct (tick_keeps_handle env host net st) as (Hm & Ht & _).
  split; [exact Hm|]. split; [exact Ht|].
  split.
  { intros h id. pose proof (tick_sourceData env host net st h id) as Hs.
    cbv zeta in Hs. by rewrite Hfail in Hs. }
  split.
  { unfold tickFailed in Hfail. rewrite <- tick_error_nonEmpty in Hfail.
    destruct (error (fetchGarminLocation env host net st)) as [[|c s]|];
      [| reflexivity |]; by apply bool_decide_eq_true_1 in Hfail as [? [=]]. }
  split; [apply tick_requests|].
  rewrite tickFailed_eq in Hfail. unfold feedRead.
  destruct (truthy (garmin env !! "mapshareId")) eqn:Hc; simpl in *.
  - destruct (feedResult host (net (feedUrl env))) as [e|[[x y] ts]] eqn:Hf.
    + rewrite (unparsed_tick _ _ _ _ _ Hc Hf). simpl. rewrite length_app. simpl.
      split; [reflexivity|]. split; [by repeat split | discriminate].
    + destruct (parsed_tick_location _ _ _ st _ _ _ Hc Hf) as [Hl He].
      rewrite Hfail in He. split.
      * rewrite (parsed_tick _ _ _ _ _ _ _ Hc Hf), Hfail. cbv zeta.
        match goal with |- context [updateMap ?h0 ?m ?c ?s] =>
          destruct (updateMap_frame h0 m c s) as (_ & _ & _ & _ & _ & _ & Hk) end.
        simpl. rewrite length_app, Hk. reflexivity.
      * split; [discriminate|]. intros _. split; [exact Hfail|].
        split; [exact He|]. by exists x, y, ts.
  - rewrite (fetchGarminLocation_unconfigured _ _ _ _ Hc). simpl.
    rewrite Nat.add_0_r. split; [reflexivity|]. split; [by repeat split | discriminate].
Qed.

Lemma failed_tick_frame_witness :
  let st' := fetchGarminLocation Scenario.env RefHost.host Scenario.notFound
               Scenario.ready in
  (currentLocation st' = initialLocation
   /\ requests st' = ["https://share.garmin.com/feed/share/hiker42/kml"])
  /\ currentLocation (fetchGarminLocation Scenario.env RefHost.host
                        (Scenario.serving Scenario.goodBody) Scenario.ready)
     <> initialLocation.
Proof.
  cbv zeta.
  destruct (failed_tick_frame Scenario.env RefHost.host
              Scenario.notFound Scenario.ready eq_refl)
    as (_ & _ & _ & _ & Hr & _ & Hn & _).
  destruct (Hn eq_refl) as (Hl & _).
  destruct (failed_tick_frame Scenario.env RefHost.host
              (Scenario.serving Scenario.goodBody) Scenario.ready eq_refl)
    as (_ & _ & _ & _ & _ & _ & _ & Hy).
  destruct (Hy eq_refl) as (_ & _ & x & y & ts & Hf & Hl').
  split; [split; [exact Hl | exact Hr]|].
  rewrite Hl'. vm_compute in Hf. injection Hf as <- <- <-. discriminate.
Defined.

(** X9.  The message of a failed request names its cause: a rejected
    request or body read shows the message of the error it was rejected
    with, or "Unknown error" when what was thrown is not an Error; a
    non-success status shows "Failed to fetch location data" whatever
    the body holds; a document without a Placemark shows "No location
    data found".  Each is prefixed with "Failed to fetch location: ". *)
Theorem tick_error_by_cause (env : Environment) (host : Host) (net : Net)
    (st : State) :
  truthy (garmin env !! "mapshareId") = true ->
  let st' := fetchGarminLocation env host net st in
  (forall m, net (feedUrl env) = Rejected (ErrorObject m) ->
     error st' = Some ("Failed to fetch location: " ++ m))
  /\ (net (feedUrl env) = Rejected OtherValue ->
      error st' = Some "Failed to fetch location: Unknown error")
  /\ (forall text, net (feedUrl env) = Responded false text ->
      error st' = Some "Failed to fetch location: Failed to fetch location data")
  /\ (forall m, net (feedUrl env) = Responded true (inl (ErrorObject m)) ->
      error st' = Some ("Failed to fetch location: " ++ m))
  /\ (forall body, net (feedUrl env) = Responded true (inr body) ->
      querySelector "Placemark" (parseFromString host body) = None ->
      error st' = Some "Failed to fetch location: No location data found").
Proof.
  intros Hc. cbv zeta. rewrite (fetchGarminLocation_configured _ _ _ _ Hc).
  unfold feedResult. repeat split.
  - intros m ->. reflexivity.
  - intros ->. reflexivity.
  - intros text ->. reflexivity.
  - intros m ->. reflexivity.
  - intros body -> Hq. simpl. unfold parseKml. rewrite Hq. reflexivity.
Qed.

Lemma tick_error_by_cause_witness :
  error (fetchGarminLocation Scenario.env RefHost.host
           (Scenario.serving "<kml><Document></Document>") Scenario.ready)
  = Some "Failed to fetch location: No location data found"
  /\ error (fetchGarminLocation Scenario.env RefHost.host
              (fun _ => Responded false (inr Scenario.goodBody)) Scenario.ready)
     = Some "Failed to fetch location: Failed to fetch location data".
Proof.
  destruct (tick_error_by_cause Scenario.env RefHost.host
              (Scenario.serving "<kml><Document></Document>") Scenario.ready eq_refl)
    as (_ & _ & _ & _ & H5).
  destruct (tick_error_by_cause Scenario.env RefHost.host
              (fun _ => Responded false (inr Scenario.goodBody)) Scenario.ready eq_refl)
    as (_ & _ & H3 & _).
  split; [apply (H5 _ eq_refl); reflexivity | apply (H3 _ eq_refl)].
Defined.

(** ** Requests *)

(** X10.  With the identifier configured, every tick issues exactly
    one request whatever its outcome, always to the address made of the
    base address, the identifier and ["kml"] joined by slashes; a run of
    [N] ticks therefore adds [N] requests to that one address. *)
Theorem one_request_per_tick (env : Environment) (host : Host) (nets : list Net)
    (st : State) (base id : string) :
  garmin env !! "mapshareBaseUrl" = Some base ->
  garmin env !! "mapshareId" = Some id ->
  id <> EmptyString ->
  let url := base ++ "/" ++ id ++ "/kml" in
  requests (syncLoop env host nets st)
  = (requests st ++ replicate (length nets) url)%list.
Proof.
  intros Hb Hi Hne. cbv zeta.
  assert (Hu : feedUrl env = base ++ "/" ++ id ++ "/kml")
    by (unfold feedUrl; by rewrite Hb, Hi).
  assert (Hc : truthy (garmin env !! "mapshareId") = true)
    by (rewrite Hi; by destruct id).
  revert st. induction nets as [|net nets IH]; intros st; simpl.
  - by rewrite app_nil_r.
  - rewrite IH, tick_requests, Hc, Hu, <- app_assoc. reflexivity.
Qed.

Lemma one_request_per_tick_witness :
  requests (syncLoop Scenario.env RefHost.host
              [Scenario.notFound; Scenario.serving Scenario.goodBody] Scenario.ready)
  = ["https://share.garmin.com/feed/share/hiker42/kml";
     "https://share.garmin.com/feed/share/hiker42/kml"].
Proof.
  apply (one_request_per_tick Scenario.env RefHost.host
           [Scenario.notFound; Scenario.serving Scenario.goodBody] Scenario.ready
           "https://share.garmin.com/feed/share" "hiker42" eq_refl eq_refl).
  discriminate.
Defined.

(** ** Ticks and the state they start from *)

(** X11.  A tick reads the state of the component in one respect
    only, whether it holds a map and the document a marker element.
    From two states that agree on that, the tick fails or succeeds
    alike and leaves the same error, so a message left by an earlier
    tick never survives a tick.  The location a tick stores once its
    feed is read is the same from any two states.  But the same feed
    that gives a successful tick while there is no map gives a failed
    one once the map and its marker are there. *)
Theorem tick_outcome_depends_on_marker (env : Environment) (host : Host) (net : Net)
    (st1 st2 : State) :
  let t1 := fetchGarminLocation env host net st1 in
  let t2 := fetchGarminLocation env host net st2 in
  (reachesMarkerUpdate st1 = reachesMarkerUpdate st2 ->
   error t1 = error t2
   /\ tickFailed env host net st1 = tickFailed env host net st2)
  /\ (feedRead env host net = true -> currentLocation t1 = currentLocation t2)
  /\ (feedRead env host net = true ->
      reachesMarkerUpdate st1 = false -> reachesMarkerUpdate st2 = true ->
      error t1 = None /\ error t2 = Some (markerUpdateMessage host)).
Proof.
  cbv zeta. unfold feedRead.
  destruct (truthy (garmin env !! "mapshareId")) eqn:Hc; simpl.
  - destruct (feedResult host (net (feedUrl env))) as [e|[[x y] ts]] eqn:Hf.
    + split; [|split; discriminate]. intros _.
      unfold tickFailed. by rewrite !(unparsed_tick _ _ _ _ _ Hc Hf).
    + destruct (parsed_tick_location _ _ _ st1 _ _ _ Hc Hf) as [Hl1 He1].
      destruct (parsed_tick_location _ _ _ st2 _ _ _ Hc Hf) as [Hl2 He2].
      split; [|split].
      * intros Hr. unfold tickFailed. by rewrite He1, He2, Hr.
      * intros _. by rewrite Hl1, Hl2.
      * intros _ H1 H2. by rewrite He1, He2, H1, H2.
  - split; [|split; discriminate]. intros _.
    unfold tickFailed. by rewrite !(fetchGarminLocation_unconfigured _ _ _ _ Hc).
Qed.

Lemma tick_outcome_depends_on_marker_witness :
  let net := Scenario.serving Scenario.goodBody in
  let t1 := fetchGarminLocation Scenario.env RefHost.host net Scenario.beforeReady in
  let t2 := fetchGarminLocation Scenario.env RefHost.host net Scenario.ready in
  currentLocation t1 = currentLocation t2
  /\ error t1 = None
  /\ error t2 = Some "Failed to fetch location: markers[0].update is not a function".
Proof.
  cbv zeta.
  destruct (tick_outcome_depends_on_marker Scenario.env RefHost.host
              (Scenario.serving Scenario.goodBody) Scenario.beforeReady Scenario.ready)
    as (_ & Hl & He).
  split; [apply Hl; reflexivity|]. apply He; reflexivity.
Defined.

(** ** Tracking history over a run *)

(** X12.  Over any run of the sync loop and for any map [h], the
    tracking history is only ever extended at its end, by at most one
    point per successful tick and none per failed tick; a history that
    does not exist is not created; and the ["route"] source, the layers
    and the planned route are left as they were. *)
Theorem history_only_extended (env : Environment) (host : Host) (nets : list Net)
    (st : State) (h : nat) :
  let st' := syncLoop env host nets st in
  let grown := (length nets - failures env host nets st)%nat in
  (forall old, sourceData h "tracking-history" st = Some old ->
     exists new, sourceData h "tracking-history" st' = Some (old ++ new)%list
                 /\ (length new <= grown)%nat)
  /\ (sourceData h "tracking-history" st = None ->
      sourceData h "tracking-history" st' = None)
  /\ (historyLength h st <= historyLength h st' <= historyLength h st + grown)%nat
  /\ sourceData h "route" st' = sourceData h "route" st
  /\ layers <$> instances st' !! h = layers <$> instances st !! h
  /\ plannedRoute st' = plannedRoute st.
Proof.
  cbv zeta.
  assert (Hmain : forall nets st,
    (forall old, sourceData h "tracking-history" st = Some old ->
       exists new, sourceData h "tracking-history" (syncLoop env host nets st)
                   = Some (old ++ new)%list
                   /\ (length new <= length nets - failures env host nets st)%nat)
    /\ (sourceData h "tracking-history" st = None ->
        sourceData h "tracking-history" (syncLoop env host nets st) = None)
    /\ sourceData h "route" (syncLoop env host nets st) = sourceData h "route" st
    /\ layers <$> instances (syncLoop env host nets st) !! h = layers <$> instances st !! h
    /\ plannedRoute (syncLoop env host nets st) = plannedRoute st).
  { clear nets st. intros nets. induction nets as [|net nets IH]; intros st.
    - simpl. split; [|by repeat split].
      intros old Ho. exists []. rewrite app_nil_r. by split.
    - simpl syncLoop. simpl failures. simpl length.
      pose proof (failures_le env host nets (fetchGarminLocation env host net st)) as Hle.
      pose proof (tick_sourceData env host net st h "tracking-history") as Ht.
      pose proof (tick_sourceData env host net st h "route") as Hr.
      destruct (tick_keeps_handle env host net st) as (Hm & _ & Hp).
      destruct (IH (fetchGarminLocation env host net st))
        as (IH1 & IH2 & IH3 & IH4 & IH5).
      cbv zeta in Ht, Hr.
      rewrite (decide_False (P := _ /\ "route" = _)) in Hr by (by intros [_ ?]).
      split; [|split; [|split; [|split]]].
      + intros old Ho. rewrite Ho in Ht.
        destruct (tickFailed env host net st).
        * destruct (IH1 old Ht) as (new & E & L1).
          exists new. split; [done|lia].
        * destruct (decide (map st = Some h /\ _)) as [[M _]|N].
          -- simpl in Ht.
             destruct (IH1 _ Ht) as (new & E & L1).
             eexists (_ :: new). rewrite E, <- app_assoc. simpl.
             split; [done|lia].
          -- destruct (IH1 old Ht) as (new & E & L1).
             exists new. split; [done|lia].
      + intros Hn. apply IH2. rewrite Hn in Ht.
        destruct (tickFailed env host net st); [done|].
        by case_decide.
      + rewrite IH3. by destruct (tickFailed env host net st).
      + rewrite IH4. apply tick_layers.
      + by rewrite IH5. }
  destruct (Hmain nets st) as (H1 & H2 & H3 & H4 & H5).
  split; [exact H1|]. split; [exact H2|]. split; [|by repeat split].
  unfold historyLength.
  destruct (sourceData h "tracking-history" st) as [old|] eqn:Ho.
  - destruct (H1 old eq_refl) as (new & -> & L). simpl. rewrite length_app. lia.
  - rewrite (H2 eq_refl). simpl. lia.
Qed.

(** A run on a map without a marker element: two of the three ticks
    read the feed and two points are appended. *)
Lemma history_only_extended_witness :
  let st := withMarkers [] Scenario.ready in
  let nets := [Scenario.serving Scenario.goodBody; Scenario.notFound;
               Scenario.serving Scenario.goodBody] in
  (exists new,
     sourceData 0 "tracking-history" (syncLoop Scenario.env RefHost.host nets st)
     = Some ([] ++ new)%list /\ (length new <= 2)%nat)
  /\ sourceData 0 "route" (syncLoop Scenario.env RefHost.host nets st) = Some [].
Proof.
  cbv zeta.
  destruct (history_only_extended Scenario.env RefHost.host
              [Scenario.serving Scenario.goodBody; Scenario.notFound;
               Scenario.serving Scenario.goodBody]
              (withMarkers [] Scenario.ready) 0)
    as (H & _ & _ & Hr & _).
  split; [exact (H [] eq_refl) | exact Hr].
Defined.

Example history_without_marker :
  let st := withMarkers [] Scenario.ready in
  let nets := [Scenario.serving Scenario.goodBody; Scenario.notFound;
               Scenario.serving Scenario.goodBody] in
  sourceData 0 "tracking-history" (syncLoop Scenario.env RefHost.host nets st)
  = Some [(Fin (-149 # 2), Fin (401 # 10)); (Fin (-149 # 2), Fin (401 # 10))].
Proof. vm_compute. reflexivity. Qed.

(** ** Which coordinates texts are accepted *)

Lemma trimStart_blank (s : string) : blank s = true -> JsString.trimStart s = EmptyString.
Proof.
  induction s as [|c s IH]; simpl; [reflexivity|].
  intros H. apply andb_true_iff in H as [Hc Hs]. rewrite Hc. by apply IH.
Qed.

Lemma Number_blank (s : string) : blank s = true -> JsNumber.Number s = Fin 0.
Proof.
  intros H. unfold JsNumber.Number, JsString.trim. by rewrite (trimStart_blank _ H).
Qed.

Section FeedEdges.

Variables (env : Environment) (host : Host) (net : Net) (st : State).
Variables (body : string) (placemark coordinatesElement timestampElement : ElementRef).

Hypothesis configured : truthy (garmin env !! "mapshareId") = true.
Hypothesis responded : net (feedUrl env) = Responded true (inr body).
Hypothesis hasPlacemark :
  querySelector "Placemark" (parseFromString host body) = Some placemark.
Hypothesis hasCoordinates :
  elementQuerySelector "coordinates" placemark = Some coordinatesElement.
Hypothesis hasTimestamp :
  elementQuerySelector "TimeStamp when" placemark = Some timestampElement.

Lemma feed_result_components :
  feedResult host (net (feedUrl env))
  = let parts : list number := JsNumber.Number <$> components coordinatesElement in
    if isNaN (parts !! 1%nat) || isNaN (parts !! 0%nat) then
      inl (ErrorObject "Invalid coordinates in KML")
    else
      match parts !! 0%nat, parts !! 1%nat with
      | Some lng, Some lat =>
          inr (lng, lat, newDate host (textContent timestampElement))
      | _, _ => inl (ErrorObject "Invalid coordinates in KML")
      end.
Proof.
  rewrite (feed_result env host net body responded).
  apply (parseKml_components host body placemark hasPlacemark
           coordinatesElement timestampElement hasCoordinates hasTimestamp).
Qed.

Lemma feed_tick_error :
  error (fetchGarminLocation env host net st)
  = let parts : list number := JsNumber.Number <$> components coordinatesElement in
    if isNaN (parts !! 1%nat) || isNaN (parts !! 0%nat)
    then Some "Failed to fetch location: Invalid coordinates in KML"
    else if reachesMarkerUpdate st then Some (markerUpdateMessage host) else None.
Proof.
  pose proof feed_result_components as Hf. cbv zeta in *.
  destruct ((JsNumber.Number <$> components coordinatesElement) !! 1%nat) as [y|];
    [|by rewrite (unparsed_tick _ _ _ _ _ configured Hf)].
  destruct ((JsNumber.Number <$> components coordinatesElement) !! 0%nat) as [x|];
    [|destruct (isNaN (Some y)); by rewrite (unparsed_tick _ _ _ _ _ configured Hf)].
  destruct (isNaN (Some y) || isNaN (Some x));
    [by rewrite (unparsed_tick _ _ _ _ _ configured Hf)|].
  by destruct (parsed_tick_location _ _ _ st _ _ _ configured Hf) as [_ ->].
Qed.


(** X14.  A coordinates text without a comma, the empty text included,
    is rejected as invalid coordinates even when it is a number: the
    latitude is then missing. *)
Theorem single_component_is_invalid :
  JsString.contains "," (JsString.trim (textContent coordinatesElement)) = false ->
  let st' := fetchGarminLocation env host net st in
  error st' = Some "Failed to fetch location: Invalid coordinates in KML"
  /\ currentLocation st' = currentLocation st.
Proof.
  intros Hn. cbv zeta. split.
  - rewrite feed_tick_error. cbv zeta. unfold components.
    by rewrite (split_no_sep _ _ Hn).
  - pose proof feed_result_components as Hf. cbv zeta in Hf. unfold components in Hf.
    rewrite (split_no_sep _ _ Hn) in Hf.
    by rewrite (unparsed_tick _ _ _ _ _ configured Hf).
Qed.

(** X15.  A longitude or latitude component that is empty or white
    space only is not rejected: it is read as 0 and stored as such.
    The tick then ends as any tick that has stored a location. *)
Theorem blank_component_is_zero (lon lat : string) :
  components coordinatesElement !! 0%nat = Some lon ->
  components coordinatesElement !! 1%nat = Some lat ->
  let st' := fetchGarminLocation env host net st in
  (blank lon = true -> isNaN (Some (JsNumber.Number lat)) = false ->
   App.lng (currentLocation st') = Fin 0
   /\ App.lat (currentLocation st') = JsNumber.Number lat
   /\ error st' = if reachesMarkerUpdate st then Some (markerUpdateMessage host) else None)
  /\ (blank lat = true -> isNaN (Some (JsNumber.Number lon)) = false ->
      App.lng (currentLocation st') = JsNumber.Number lon
      /\ App.lat (currentLocation st') = Fin 0
      /\ error st' = if reachesMarkerUpdate st then Some (markerUpdateMessage host) else None).
Proof.
  intros H0 H1. cbv zeta. split; intros Hb Hn.
  - assert (Hz : isNaN (Some (JsNumber.Number lon)) = false)
      by by rewrite (Number_blank _ Hb).
    destruct (numeric_components_commit env host net st body placemark
                configured responded hasPlacemark coordinatesElement timestampElement
                hasCoordinates hasTimestamp lon lat H0 H1 Hz Hn) as [Hl He].
    rewrite He, Hl. simpl. by rewrite (Number_blank _ Hb).
  - assert (Hz : isNaN (Some (JsNumber.Number lat)) = false)
      by by rewrite (Number_blank _ Hb).
    destruct (numeric_components_commit env host net st body placemark
                configured responded hasPlacemark coordinatesElement timestampElement
                hasCoordinates hasTimestamp lon lat H0 H1 Hn Hz) as [Hl He].
    rewrite He, Hl. simpl. by rewrite (Number_blank _ Hb).
Qed.

End FeedEdges.


Lemma single_component_is_invalid_witness :
  let body := Scenario.placemark "12.3" "2024-01-01T00:00:00Z" in
  error (fetchGarminLocation Scenario.env RefHost.host (Scenario.serving body)
           Scenario.ready)
  = Some "Failed to fetch location: Invalid coordinates in KML".
Proof.
  cbv zeta.
  pose (body := Scenario.placemark "12.3" "2024-01-01T00:00:00Z").
  destruct (single_component_is_invalid Scenario.env RefHost.host
              (Scenario.serving body) Scenario.ready body (Scenario.placemarkOf body)
              (Scenario.coordinatesOf body) (Scenario.whenOf body)
              eq_refl eq_refl eq_refl eq_refl eq_refl eq_refl) as [H _].
  exact H.
Defined.

(** The coordinates text [","] puts the tracker at (0, 0). *)
Lemma blank_component_is_zero_witness :
  let body := Scenario.placemark "," "2024-01-01T00:00:00Z" in
  let st' := fetchGarminLocation Scenario.env RefHost.host (Scenario.serving body)
               Scenario.beforeReady in
  lng (currentLocation st') = Fin 0 /\ lat (currentLocation st') = Fin 0
  /\ error st' = None.
Proof.
  cbv zeta.
  pose (body := Scenario.placemark "," "2024-01-01T00:00:00Z").
  destruct (blank_component_is_zero Scenario.env RefHost.host
              (Scenario.serving body) Scenario.beforeReady body (Scenario.placemarkOf body)
              (Scenario.coordinatesOf body) (Scenario.whenOf body)
              eq_refl eq_refl eq_refl eq_refl eq_refl "" "" eq_refl eq_refl) as [H _].
  destruct (H eq_refl eq_refl) as (Hx & Hy & He).
  split; [exact Hx|]. split; [exact Hy | exact He].
Defined.

(** ** The location over a run *)

Lemma tick_location (env : Environment) (host : Host) (net : Net) (st : State) :
  let st' := fetchGarminLocation env host net st in
  if feedRead env host net then is_Some (timestamp (currentLocation st'))
  else currentLocation st' = currentLocation st.
Proof.
  cbv zeta. unfold feedRead.
  destruct (truthy (garmin env !! "mapshareId")) eqn:Hc; simpl;
    [|by rewrite (fetchGarminLocation_unconfigured _ _ _ _ Hc)].
  destruct (feedResult host (net (feedUrl env))) as [e|[[x y] ts]] eqn:Hf.
  - by rewrite (unparsed_tick _ _ _ _ _ Hc Hf).
  - destruct (parsed_tick_location _ _ _ st _ _ _ Hc Hf) as [-> _]. by eexists.
Qed.

Lemma tick_reaches (env : Environment) (host : Host) (net : Net) (st : State) :
  reachesMarkerUpdate (fetchGarminLocation env host net st) = reachesMarkerUpdate st.
Proof.
  unfold reachesMarkerUpdate.
  rewrite (proj1 (tick_keeps_handle env host net st)).
  pose proof (tick_markers_length env host net st) as Hl.
  destruct (map st); [|reflexivity].
  by destruct (markers st), (markers (fetchGarminLocation env host net st)).
Qed.

(** X16.  Over any run of ticks: when no tick of the run reads a
    location from its feed, the location is what it was; a timestamp,
    once stored, is never cleared; and as soon as one tick of the run
    has read a location the location has a timestamp, whether or not
    that tick went on to fail.  While the component holds no map, or
    the document no marker element, the ticks that store nothing are
    the failed ones: when they all fail the location is what it was. *)
Theorem location_over_run (env : Environment) (host : Host) (nets : list Net)
    (st : State) :
  let st' := syncLoop env host nets st in
  (forallb (fun net => negb (feedRead env host net)) nets = true ->
   currentLocation st' = currentLocation st)
  /\ (is_Some (timestamp (currentLocation st)) ->
      is_Some (timestamp (currentLocation st')))
  /\ (existsb (feedRead env host) nets = true ->
      is_Some (timestamp (currentLocation st')))
  /\ (reachesMarkerUpdate st = false -> failures env host nets st = length nets ->
      currentLocation st' = currentLocation st).
Proof.
  cbv zeta. revert st. induction nets as [|net nets IH]; intros st; simpl.
  - repeat split; done.
  - destruct (IH (fetchGarminLocation env host net st)) as (IH1 & IH2 & IH3 & IH4).
    pose proof (failures_le env host nets (fetchGarminLocation env host net st)) as Hle.
    pose proof (tick_location env host net st) as Ht. cbv zeta in Ht.
    rewrite tick_reaches in IH4.
    assert (Hfail : reachesMarkerUpdate st = false ->
              tickFailed env host net st = negb (feedRead env host net)).
    { intros Hr. rewrite tickFailed_eq, Hr. unfold feedRead.
      destruct (truthy (garmin env !! "mapshareId")); simpl; [|reflexivity].
      by destruct (feedResult host (net (feedUrl env))). }
    destruct (feedRead env host net); simpl.
    + split; [discriminate|]. split; [intros _; by apply IH2|].
      split; [intros _; by apply IH2|].
      intros Hr. rewrite (Hfail Hr). simpl. lia.
    + rewrite Ht in *. split; [exact IH1|]. split; [exact IH2|].
      split; [exact IH3|].
      intros Hr. rewrite (Hfail Hr). simpl. intros H. apply IH4; [exact Hr | lia].
Qed.

Lemma location_over_run_witness :
  currentLocation (syncLoop Scenario.env RefHost.host
                     [Scenario.notFound; Scenario.notFound] Scenario.ready)
  = initialLocation
  /\ is_Some (timestamp (currentLocation
       (syncLoop Scenario.env RefHost.host
          [Scenario.serving Scenario.goodBody; Scenario.notFound] Scenario.ready))).
Proof.
  destruct (location_over_run Scenario.env RefHost.host
              [Scenario.notFound; Scenario.notFound] Scenario.ready) as (H1 & _).
  destruct (location_over_run Scenario.env RefHost.host
              [Scenario.serving Scenario.goodBody; Scenario.notFound] Scenario.ready)
    as (_ & _ & H3 & _).
  split; [apply H1; reflexivity | apply H3; reflexivity].
Defined.

(** ** The view *)

Import View.

Lemma render_alerts (toLocaleString : Date -> string) (st : State) :
  textOf <$> elementsOf "AlertDescription" (render toLocaleString st)
  = option_list (nonEmpty (error st))
  /\ length (elementsOf "Alert" (render toLocaleString st))
     = length (option_list (nonEmpty (error st))).
Proof.
  unfold render.
  destruct (nonEmpty (error st)), (timestamp (currentLocation st)), (isTracking st);
    split; cbn; rewrite ?append_empty_r; reflexivity.
Qed.

(** X17.  The view rendered after a tick shows one alert holding the
    tick's message when the tick failed and no alert when it succeeded,
    whatever was shown before.  In general the alert is shown exactly
    when the error slot holds a non-empty string. *)
Theorem alert_after_tick (toLocaleString : Date -> string) (env : Environment)
    (host : Host) (net : Net) (st : State) :
  let st' := fetchGarminLocation env host net st in
  let v := render toLocaleString st' in
  textOf <$> elementsOf "AlertDescription" v = option_list (error st')
  /\ length (elementsOf "Alert" v) = (if tickFailed env host net st then 1 else 0)%nat
  /\ forall st0,
       elementsOf "Alert" (render toLocaleString st0) = []
       <-> truthy (error st0) = false.
Proof.
  cbv zeta.
  destruct (render_alerts toLocaleString (fetchGarminLocation env host net st))
    as [Ha Hl].
  rewrite Ha, Hl, tick_error_nonEmpty. unfold tickFailed.
  split; [reflexivity|]. split.
  - by destruct (error (fetchGarminLocation env host net st)).
  - intros st0. destruct (render_alerts toLocaleString st0) as [_ Hl0].
    assert (Hn : length (option_list (nonEmpty (error st0)))
                 = if truthy (error st0) then 1%nat else 0%nat)
      by (unfold nonEmpty; by destruct (error st0) as [[|c m]|]).
    rewrite Hn in Hl0. clear Hn.
    destruct (truthy (error st0)).
    + split; [|discriminate]. intros E0. rewrite E0 in Hl0. discriminate.
    + split; [done|]. intros _. by apply length_zero_iff_nil.
Qed.

Lemma alert_after_tick_witness :
  textOf <$> elementsOf "AlertDescription"
    (render (fun _ => "a date")
       (fetchGarminLocation Scenario.env RefHost.host Scenario.notFound Scenario.ready))
  = ["Failed to fetch location: Failed to fetch location data"].
Proof.
  destruct (alert_after_tick (fun _ => "a date") Scenario.env RefHost.host
              Scenario.notFound Scenario.ready) as (H & _).
  exact H.
Defined.

Lemma render_divs (toLocaleString : Date -> string) (st : State) :
  textOf <$> elementsOf "div" (render toLocaleString st)
  = ([if isTracking st then "Upload RouteStop Tracking" else "Upload RouteStart Tracking"]
     ++ match timestamp (currentLocation st) with
        | Some ts => [("Last updated: " ++ toLocaleString ts)%string]
        | None => []
        end
     ++ [EmptyString])%list.
Proof.
  unfold render.
  destruct (nonEmpty (error st)), (timestamp (currentLocation st)), (isTracking st);
    cbn; rewrite ?append_empty_r; reflexivity.
Qed.

(** X18.  The "Last updated" line is shown exactly when the location
    has a timestamp.  It is absent at mount; after a tick that has read
    a location from its feed it is there, showing the host's rendering
    of the date the tick stored, the invalid date included, also when
    the tick then failed at the marker; a tick that read no location
    leaves the lines as they were. *)
Theorem last_updated_line (toLocaleString : Date -> string) (env : Environment)
    (host : Host) (net : Net) (st : State) :
  let lines st0 := textOf <$> elementsOf "div" (render toLocaleString st0) in
  let st' := fetchGarminLocation env host net st in
  (forall loaded, lines (initialState loaded) = ["Upload RouteStart Tracking"; ""])
  /\ (forall st0,
        match timestamp (currentLocation st0) with
        | Some ts =>
            length (lines st0) = 3%nat
            /\ lines st0 !! 1%nat = Some ("Last updated: " ++ toLocaleString ts)
        | None => length (lines st0) = 2%nat
        end)
  /\ (feedRead env host net = true ->
      exists ts, timestamp (currentLocation st') = Some ts
                 /\ lines st' !! 1%nat = Some ("Last updated: " ++ toLocaleString ts))
  /\ (feedRead env host net = false -> lines st' = lines st).
Proof.
  cbv zeta. split; [by intros []|]. split; [|split].
  - intros st0. rewrite render_divs.
    by destruct (timestamp (currentLocation st0)) as [ts0|].
  - intros Hr. pose proof (tick_location env host net st) as Ht. cbv zeta in Ht.
    rewrite Hr in Ht. destruct Ht as [ts Hts].
    exists ts. rewrite render_divs, Hts. by split.
  - intros Hr. pose proof (tick_location env host net st) as Ht. cbv zeta in Ht.
    rewrite Hr in Ht. rewrite !render_divs, Ht.
    by rewrite (proj1 (proj2 (tick_keeps_handle env host net st))).
Qed.

Lemma last_updated_line_witness :
  (textOf <$> elementsOf "div"
     (render (fun d => match d with InvalidDate => "Invalid Date" | TimeValue _ => "a date" end)
        (fetchGarminLocation Scenario.env RefHost.host
           (Scenario.serving (Scenario.placemark "1,2" "yesterday")) Scenario.ready)))
    !! 1%nat
  = Some "Last updated: Invalid Date".
Proof.
  destruct (last_updated_line
              (fun d => match d with InvalidDate => "Invalid Date" | TimeValue _ => "a date" end)
              Scenario.env RefHost.host
              (Scenario.serving (Scenario.placemark "1,2" "yesterday")) Scenario.ready)
    as (_ & _ & H & _).
  destruct (H eq_refl) as (ts & Hts & Hl).
  rewrite Hl. vm_compute in Hts. injection Hts as <-. reflexivity.
Defined.

(** X19.  The tracking button reads "Stop Tracking" with the
    destructive variant exactly when tracking is on, and "Start
    Tracking" with the default variant otherwise.  Its click handler
    flips the flag and nothing else, so two clicks restore the
    component; a tick never changes what the button shows. *)
Theorem tracking_button (toLocaleString : Date -> string) (env : Environment)
    (host : Host) (net : Net) (st : State) :
  elementsOf "Button" (render toLocaleString st)
  = [VElement "Button"
       [("variant", PString "outline"); ("onClick", PHandler OpenRouteUpload)]
       [VElement "Upload" [("className", PString "w-4 h-4 mr-2")] [];
        VText "Upload Route"];
     VElement "Button"
       [("variant", PString (if isTracking st then "destructive" else "default"));
        ("onClick", PHandler ToggleTracking)]
       [VElement (if isTracking st then "Pause" else "Play")
          [("className", PString "w-4 h-4 mr-2")] [];
        VText (if isTracking st then "Stop Tracking" else "Start Tracking")]]
  /\ isTracking (toggleTracking st) = negb (isTracking st)
  /\ toggleTracking (toggleTracking st) = st
  /\ elementsOf "Button" (render toLocaleString (fetchGarminLocation env host net st))
     = elementsOf "Button" (render toLocaleString st).
Proof.
  assert (Hb : forall s1 s2, isTracking s1 = isTracking s2 ->
            elementsOf "Button" (render toLocaleString s1)
            = elementsOf "Button" (render toLocaleString s2)).
  { intros s1 s2 E. unfold render. rewrite E.
    destruct (nonEmpty (error s1)), (timestamp (currentLocation s1)),
      (nonEmpty (error s2)), (timestamp (currentLocation s2)), (isTracking s2);
      reflexivity. }
  split.
  { unfold render.
    destruct (nonEmpty (error st)), (timestamp (currentLocation st)), (isTracking st);
      reflexivity. }
  split; [reflexivity|]. split.
  { unfold toggleTracking, setIsTracking. destruct st; simpl.
    by rewrite negb_involutive. }
  apply Hb. apply tick_keeps_handle.
Qed.

Lemma tracking_button_witness :
  textOf <$> elementsOf "Button"
    (render (fun _ => "a date") (toggleTracking Scenario.ready))
  = ["Upload Route"; "Stop Tracking"].
Proof.
  destruct (tracking_button (fun _ => "a date") Scenario.env RefHost.host
              Scenario.notFound (toggleTracking Scenario.ready)) as (H & _).
  rewrite H. reflexivity.
Defined.

(** ** The mount effect *)

Lemma filter_other_ids {A : Type} (l : list (nat * A)) (n : nat) :
  Forall (fun x => x.1 <> n) l ->
  List.filter (fun x => negb (Nat.eqb x.1 n)) l = l.
Proof.
  induction 1 as [|x l Hx _ IH]; simpl; [reflexivity|].
  rewrite (proj2 (Nat.eqb_neq _ _) Hx). simpl. by rewrite IH.
Qed.

Lemma filter_last_id {A : Type} (l : list (nat * A)) (n : nat) (a : A) :
  Forall (fun x => x.1 <> n) l ->
  List.filter (fun x => negb (Nat.eqb x.1 n)) (l ++ [(n, a)]) = l.
Proof.
  intros H. rewrite List.filter_app, (filter_other_ids _ _ H). simpl.
  rewrite Nat.eqb_refl. simpl. apply app_nil_r.
Qed.

Lemma filter_keep_last {A : Type} (l : list (nat * A)) (n k : nat) (a : A) :
  Forall (fun x => x.1 <> n) l -> k <> n ->
  List.filter (fun x => negb (Nat.eqb x.1 n)) (l ++ [(k, a)]) = (l ++ [(k, a)])%list.
Proof.
  intros H Hk. apply filter_other_ids. apply Forall_app. split; [exact H|].
  by repeat constructor.
Qed.

(** X20.  In a document whose nodes were all created before, the mount
    effect appends the library script as last child of the body and the
    style sheet link as last child of the head, and the cleanup it
    returns removes exactly these two: run right after the effect it
    restores head and body, and run later it leaves in place a node
    appended to the body in between. *)
Theorem mount_cleanup_round_trip (d : Page.Document) :
  Forall (fun x => (x.1 < Page.nextNode d)%nat) (Page.head d) ->
  Forall (fun x => (x.1 < Page.nextNode d)%nat) (Page.body d) ->
  let mounted := (Page.mountEffect d).1 in
  let cleanup := (Page.mountEffect d).2 in
  Page.body mounted = (Page.body d ++ [(Page.nextNode d, Page.scriptElement)])%list
  /\ Page.head mounted = (Page.head d ++ [(S (Page.nextNode d), Page.linkElement)])%list
  /\ Page.head (cleanup mounted) = Page.head d
  /\ Page.body (cleanup mounted) = Page.body d
  /\ forall e,
       let created := Page.createElement (Page.tag e) mounted in
       Page.body (cleanup (Page.appendToBody created.1 e created.2))
       = (Page.body d ++ [(created.1, e)])%list.
Proof.
  intros Hh Hb. cbv zeta.
  set (n := Page.nextNode d).
  assert (Hh0 : Forall (fun x : nat * Page.HtmlElement => x.1 <> n) (Page.head d))
    by (eapply Forall_impl; [exact Hh | simpl; intros; lia]).
  assert (Hh1 : Forall (fun x : nat * Page.HtmlElement => x.1 <> S n) (Page.head d))
    by (eapply Forall_impl; [exact Hh | simpl; intros; lia]).
  assert (Hb0 : Forall (fun x : nat * Page.HtmlElement => x.1 <> n) (Page.body d))
    by (eapply Forall_impl; [exact Hb | simpl; intros; lia]).
  assert (Hb1 : Forall (fun x : nat * Page.HtmlElement => x.1 <> S n) (Page.body d))
    by (eapply Forall_impl; [exact Hb | simpl; intros; lia]).
  unfold Page.mountEffect, Page.createElement, Page.appendToBody,
    Page.appendToHead, Page.remove.
  cbn [fst snd Page.head Page.body Page.nextNode]. fold n.
  split; [reflexivity|]. split; [reflexivity|]. split; [|split].
  - rewrite (filter_keep_last _ n (S n) _ Hh0) by lia.
    by apply filter_last_id.
  - rewrite (filter_last_id _ n _ Hb0). by apply filter_other_ids.
  - intros e. rewrite <- app_assoc.
    rewrite List.filter_app, (filter_other_ids _ _ Hb0).
    assert (E : List.filter (fun x : nat * Page.HtmlElement => negb (Nat.eqb x.1 n))
                  ([(n, Page.scriptElement)] ++ [(S (S n), e)])
                = [(S (S n), e)]).
    { cbn [List.filter app fst]. rewrite Nat.eqb_refl.
      rewrite (proj2 (Nat.eqb_neq (S (S n)) n)) by lia. reflexivity. }
    rewrite E. apply filter_keep_last; [exact Hb1 | lia].
Qed.

Lemma mount_cleanup_round_trip_witness :
  let d := {| Page.head := [(0%nat, {| Page.tag := "title"; Page.attributes := [] |})];
              Page.body := [(1%nat, {| Page.tag := "div"; Page.attributes := [("id", "root")] |})];
              Page.nextNode := 2 |} in
  Page.body ((Page.mountEffect d).2 (Page.mountEffect d).1) = Page.body d
  /\ Page.head ((Page.mountEffect d).2 (Page.mountEffect d).1) = Page.head d.
Proof.
  cbv zeta.
  destruct (mount_cleanup_round_trip
              {| Page.head := [(0%nat, {| Page.tag := "title"; Page.attributes := [] |})];
                 Page.body := [(1%nat, {| Page.tag := "div"; Page.attributes := [("id", "root")] |})];
                 Page.nextNode := 2 |})
    as (_ & _ & Hh & Hb & _).
  - repeat constructor.
  - repeat constructor.
  - split; [exact Hb | exact Hh].
Defined.
